(** * A shallow embedding of the core of [napari_nd2_folder_viewer._widget]

    The module loads a folder of nd2 files and normalises each of them to a
    6-D lazy array (t, position, z, channel, y, x) together with a dense
    (t, position, z) timestamp tensor.  This file embeds the functions of
    [_widget.py] that do the normalisation:

    - [insert_nd2_file_channels]      (channel reconciliation),
    - the time and z handling of [nd2_file_to_dask],
    - the timestamp loops of [nd2_file_to_dask],
    - [test_nd2_timestamps]          (duplicate timestamp correction),
    - [get_position_names_and_inds]  (stage position grid).

    Lazy dask arrays are modelled by their shape, their dtype and the value
    at every index; the numpy / dask primitives the code calls are written
    out below with the failure cases they have.  Timestamps and stage
    coordinates are taken as rationals ([Q]): the arithmetic is the exact
    arithmetic the floating point code approximates. *)

From Stdlib Require Import String Ascii.
From Stdlib Require Import List Arith Lia ZArith QArith.
From Stdlib Require Import Permutation Sorted Bool.
From Stdlib Require Import DecimalString Lqa Qabs Qminmax Mergesort Orders.
Import ListNotations.

Open Scope nat_scope.
Open Scope list_scope.

(** ** numpy dtypes and [np.promote_types] *)

Inductive dtype :=
| bool_ | int8 | int16 | int32 | int64
| uint8 | uint16 | uint32 | uint64
| float16 | float32 | float64.

Inductive dkind := KBool | KInt | KUInt | KFloat.

Definition kind (d : dtype) : dkind :=
  match d with
  | bool_ => KBool
  | int8 | int16 | int32 | int64 => KInt
  | uint8 | uint16 | uint32 | uint64 => KUInt
  | float16 | float32 | float64 => KFloat
  end.

(** Size in bits. *)
Definition bits (d : dtype) : nat :=
  match d with
  | bool_ => 1
  | int8 | uint8 => 8
  | int16 | uint16 | float16 => 16
  | int32 | uint32 | float32 => 32
  | int64 | uint64 | float64 => 64
  end.

Definition int_of_bits (n : nat) : dtype :=
  if n <=? 8 then int8 else if n <=? 16 then int16
  else if n <=? 32 then int32 else int64.

Definition uint_of_bits (n : nat) : dtype :=
  if n <=? 8 then uint8 else if n <=? 16 then uint16
  else if n <=? 32 then uint32 else uint64.

Definition float_of_bits (n : nat) : dtype :=
  if n <=? 16 then float16 else if n <=? 32 then float32 else float64.

(** Smallest float that holds every value of an integer type of [n] bits
    ([float16] holds 8-bit, [float32] 16-bit and [float64] 32-bit integers;
    64-bit integers go to [float64]). *)
Definition float_for_int (n : nat) : dtype :=
  if n <=? 8 then float16 else if n <=? 16 then float32 else float64.

(** [np.promote_types]. *)
Definition promote_types (a b : dtype) : dtype :=
  match kind a, kind b with
  | KBool, _ => b
  | _, KBool => a
  | KInt, KInt => int_of_bits (Nat.max (bits a) (bits b))
  | KUInt, KUInt => uint_of_bits (Nat.max (bits a) (bits b))
  | KFloat, KFloat => float_of_bits (Nat.max (bits a) (bits b))
  | KInt, KUInt =>
      if bits b <? bits a then a
      else if bits b <? 64 then int_of_bits (2 * bits b) else float64
  | KUInt, KInt =>
      if bits a <? bits b then b
      else if bits a <? 64 then int_of_bits (2 * bits a) else float64
  | KFloat, (KInt | KUInt) =>
      float_of_bits (Nat.max (bits a) (bits (float_for_int (bits b))))
  | (KInt | KUInt), KFloat =>
      float_of_bits (Nat.max (bits b) (bits (float_for_int (bits a))))
  end.

(** ** Lazy arrays

    An array has a shape (Python ints, so possibly negative before dask
    validates it), a dtype and a value at every index. *)

Record arr := mkArr {
  ashape : list Z;
  adtype : dtype;
  aval : list nat -> Z
}.

(** [l] with its [n]-th element replaced. *)
Fixpoint set_nth {A} (n : nat) (x : A) (l : list A) : list A :=
  match l, n with
  | [], _ => []
  | _ :: t, O => x :: t
  | h :: t, S n' => h :: set_nth n' x t
  end.

(** [da.expand_dims(a, axis=ax)]: fails unless [ax <= a.ndim]. *)
Definition expand_dims (a : arr) (ax : nat) : option arr :=
  if ax <=? length (ashape a) then
    Some (mkArr (firstn ax (ashape a) ++ [1%Z] ++ skipn ax (ashape a))
                (adtype a)
                (fun idx => aval a (firstn ax idx ++ skipn (S ax) idx)))
  else None.

(** [da.zeros_like(a)]. *)
Definition zeros_like (a : arr) : arr :=
  mkArr (ashape a) (adtype a) (fun _ => 0%Z).

(** [da.zeros(shape, chunks=chunks, dtype=dt)]: the chunks must have one
    entry per axis and no extent may be negative (dask's chunk
    normalisation refuses both). *)
Definition da_zeros (shape chunks : list Z) (dt : dtype) : option arr :=
  if (length chunks =? length shape) && forallb (fun d => (0 <=? d)%Z) shape
  then Some (mkArr shape dt (fun _ => 0%Z))
  else None.

(** Value of the concatenation of [l] along [ax] at an index whose [ax]
    coordinate is [i]: the piece that holds [i]. *)
Fixpoint concat_pick (ax : nat) (l : list arr) (i : Z) (idx : list nat) : Z :=
  match l with
  | [] => 0%Z
  | a :: r =>
      let d := nth ax (ashape a) 0%Z in
      if (i <? d)%Z then aval a (set_nth ax (Z.to_nat i) idx)
      else concat_pick ax r (i - d)%Z idx
  end.

(** Two shapes agree off axis [ax]. *)
Definition same_off_axis (ax : nat) (s t : list Z) : bool :=
  (length s =? length t) &&
  forallb (fun k => k =? ax)
    (filter (fun k => negb (Z.eqb (nth k s 0) (nth k t 0)))%Z
       (seq 0 (length s))).

(** [da.concatenate(l, axis=ax)]: the pieces must have the rank and the
    extents of the first one off [ax]; the dtype is the promotion of all
    dtypes. *)
Definition concatenate (ax : nat) (l : list arr) : option arr :=
  match l with
  | [] => None
  | a :: r =>
      if (ax <? length (ashape a)) &&
         forallb (fun b => same_off_axis ax (ashape a) (ashape b)) r
      then Some (mkArr
             (set_nth ax (fold_right Z.add 0%Z (map (fun b => nth ax (ashape b) 0%Z) l))
                (ashape a))
             (fold_left promote_types (map adtype r) (adtype a))
             (fun idx => concat_pick ax l (Z.of_nat (nth ax idx 0)) idx))
      else None
  end.

(** ** [nd2_file_to_dask]: shape normalisation *)

(** The test guarding [da.expand_dims(img, axis=0)]. *)
Definition insert_t_axis (tlen_ zlen_ ndim : nat) : bool :=
  (tlen_ =? 0)
  || ((tlen_ =? 1) && (zlen_ =? 0) && (ndim =? 4))
  || ((tlen_ =? 1) && negb (zlen_ =? 0) && (ndim =? 5)).

(** The [if zlen_ == 0:] block: a length-1 z axis, then a zero block of the
    array's own dtype before it and [zlen - 2] planes of [uint16] zeros
    after it. *)
Definition pad_missing_z (img : arr) (zlen : Z) : option arr :=
  match expand_dims img 2 with
  | None => None
  | Some img =>
      let first_img := zeros_like img in
      let shape := set_nth 2 (zlen - 2)%Z (ashape img) in
      match nth_error shape 4, nth_error shape 5 with
      | Some s4, Some s5 =>
          match da_zeros shape [1; 1; 1; 1; s4; s5]%Z uint16 with
          | Some last_imgs => concatenate 2 [first_img; img; last_imgs]
          | None => None
          end
      | _, _ => None
      end
  end.

(** The image part of [nd2_file_to_dask], after channel reconciliation. *)
Definition normalize_img (img : arr) (tlen_ zlen_ : nat) (zlen : Z) : option arr :=
  let img1 := if insert_t_axis tlen_ zlen_ (length (ashape img))
              then expand_dims img 0 else Some img in
  match img1 with
  | None => None
  | Some img1 => if zlen_ =? 0 then pad_missing_z img1 zlen else Some img1
  end.

(** The z position at which the spec places the real plane: the zero
    blocks before and after it split [Z - 1] planes, the trailing one
    taking the odd remainder. *)
Definition centered_z_index (zlen : Z) : Z := ((zlen - 1) / 2)%Z.

(** The index of the source array at an index of the padded one. *)
Definition drop_z (idx : list nat) : list nat := firstn 2 idx ++ skipn 3 idx.

(** ** Axis layout of the array the reader returns

    The reader omits every axis of extent 1, as well as the axes of loops
    the file does not have: time, positions, z and channels each appear,
    in that order, exactly when their extent is at least 2; y and x are
    always there.  [tlen_] and [zlen_] are the extents
    [nd2_file_to_dask] reads from [_coord_info()], [plen] the number of
    positions and [clen] the number of channels of the file. *)

Inductive axis := AT | AP | AZ | AC | AY | AX.

Definition reader_axes (tlen_ plen zlen_ clen : nat) : list axis :=
  (if 2 <=? tlen_ then [AT] else []) ++ (if 2 <=? plen then [AP] else []) ++
  (if 2 <=? zlen_ then [AZ] else []) ++ (if 2 <=? clen then [AC] else []) ++ [AY; AX].

(** Axes after [insert_nd2_file_channels] with [ncanon] canonical
    channels: every [img_[..., j, :, :]] drops the third axis from the end
    (an [IndexError] below rank 3) and [da.stack(imgs, axis=-3)] puts the
    canonical channel axis in its place (it raises on an empty list). *)
Definition reconcile_axes (ncanon : nat) (axes : list axis) : option (list axis) :=
  if (3 <=? length axes) && (1 <=? ncanon)
  then Some (firstn (length axes - 3) axes ++ [AC; AY; AX])
  else None.

(** Axes after the time-axis step of [nd2_file_to_dask]. *)
Definition axes_after_t (tlen_ zlen_ : nat) (axes : list axis) : list axis :=
  if insert_t_axis tlen_ zlen_ (length axes) then AT :: axes else axes.

(** ** [insert_nd2_file_channels]

    The array a file's reader returns, split along its channel axis
    ([..., c, y, x]): the shape and dtype every plane [img_[..., j, :, :]]
    shares, and the planes in the file's channel order. *)







(** ** Timestamp tensor of [nd2_file_to_dask]

    [tmp_times = np.zeros((tlen, mlen, zlen))], indexed (t, position, z). *)

Definition tensor := list (list (list Q)).

Definition np_zeros3 (tl ml zl : nat) : tensor :=
  repeat (repeat (repeat 0%Q zl) ml) tl.

Definition cell (T : tensor) (a b c : nat) : Q :=
  nth c (nth b (nth a T []) []) 0%Q.

(** [T] has shape (tl, ml, zl). *)
Definition rect3 (tl ml zl : nat) (T : tensor) : Prop :=
  length T = tl /\
  Forall (fun row => length row = ml /\ Forall (fun col => length col = zl) row) T.

Fixpoint mapi_from {A B} (f : nat -> A -> B) (n : nat) (l : list A) : list B :=
  match l with
  | [] => []
  | x :: r => f n x :: mapi_from f (S n) r
  end.

Definition mapi {A B} (f : nat -> A -> B) (l : list A) : list B := mapi_from f 0 l.

(** A numpy assignment [T[sel_t, sel_p, sel_z] = v], each selector given
    as the indices it picks along its axis. *)
Definition set_cells (T : tensor) (st sp sz : nat -> bool) (v : Q) : tensor :=
  mapi (fun a row =>
    if st a then
      mapi (fun b col =>
        if sp b then mapi (fun c x => if sz c then v else x) col else col) row
    else row) T.

(** One iteration of the loop over frames: the branch is chosen by the
    file's time and z extents, the frame's coordinates are unpacked as the
    branch does it ([None] for a failed unpacking or an index out of
    range).  In the first branch the whole coordinate tuple is the position
    index, which numpy reads as a list of positions. *)
Definition write_frame (tlen_ zlen_ tl ml zl : nat) (coords : list nat) (v : Q)
    (T : tensor) : option tensor :=
  if (tlen_ =? 0) && (zlen_ =? 0) then
    (* tmp_times[:, k, :] = ... *)
    if forallb (fun k => k <? ml) coords
    then Some (set_cells T (fun _ => true) (fun b => existsb (Nat.eqb b) coords)
                 (fun _ => true) v)
    else None
  else if tlen_ =? 0 then
    match coords with
    | [k; l] => (* tmp_times[:, k, l] = ... *)
        if (k <? ml) && (l <? zl)
        then Some (set_cells T (fun _ => true) (Nat.eqb k) (Nat.eqb l) v)
        else None
    | _ => None
    end
  else if zlen_ =? 0 then
    match coords with
    | [j; k] => (* tmp_times[j, k, :] = ... *)
        if (j <? tl) && (k <? ml)
        then Some (set_cells T (Nat.eqb j) (Nat.eqb k) (fun _ => true) v)
        else None
    | _ => None
    end
  else
    match coords with
    | [j; k; l] => (* tmp_times[j, k, l] = ... *)
        if (j <? tl) && (k <? ml) && (l <? zl)
        then Some (set_cells T (Nat.eqb j) (Nat.eqb k) (Nat.eqb l) v)
        else None
    | _ => None
    end.

Section Timestamps.

(** The reader of one file: [_coords_from_seq_index] and the absolute
    Julian day of each frame's first channel. *)
Variable coords_from_seq_index : nat -> list nat.
Variable frame_time : nat -> Q.
Variables tlen_ zlen_ mlen zlen : nat.

Definition tlen : nat := if tlen_ =? 0 then 1 else tlen_.

(** The tensor after the frames [0 .. n - 1]. *)
Fixpoint timestamps_upto (n : nat) : option tensor :=
  match n with
  | O => Some (np_zeros3 tlen mlen zlen)
  | S i =>
      match timestamps_upto i with
      | Some T => write_frame tlen_ zlen_ tlen mlen zlen
                    (coords_from_seq_index i) (frame_time i) T
      | None => None
      end
  end.

(** The tensor [nd2_file_to_dask] returns for a file of [frame_count]
    frames. *)
Definition nd2_timestamps (frame_count : nat) : option tensor :=
  timestamps_upto frame_count.

End Timestamps.

(** The spec's reading of a coordinate tuple: the time and z coordinates
    where those axes are present ([None] = absent, all values), and the
    position. *)
Definition present_coords (tlen_ zlen_ : nat) (coords : list nat)
    : option (option nat * nat * option nat) :=
  match tlen_ =? 0, zlen_ =? 0, coords with
  | true, true, [k] => Some (None, k, None)
  | true, false, [k; l] => Some (None, k, Some l)
  | false, true, [j; k] => Some (Some j, k, None)
  | false, false, [j; k; l] => Some (Some j, k, Some l)
  | _, _, _ => None
  end.

Definition sel (o : option nat) (a : nat) : bool :=
  match o with None => true | Some j => j =? a end.

Definition in_range (o : option nat) (n : nat) : Prop :=
  match o with None => True | Some j => j < n end.

(** ** [test_nd2_timestamps] *)

Fixpoint zip_with {A B C} (f : A -> B -> C) (l1 : list A) (l2 : list B) : list C :=
  match l1, l2 with
  | x :: r1, y :: r2 => f x y :: zip_with f r1 r2
  | _, _ => []
  end.

(** [np.diff(times, axis=0) == 0.0], all true: each row minus the row
    before it is zero everywhere. *)
Fixpoint all_diffs_zero (times : tensor) : bool :=
  match times with
  | r :: ((r' :: _) as rest) =>
      forallb (forallb (fun d => Qeq_bool d 0))
        (zip_with (zip_with Qminus) r' r)
      && all_diffs_zero rest
  | _ => true
  end.

(** [times + add_time[:, np.newaxis, np.newaxis]] with
    [add_time = np.arange(times.shape[0]) * in_julian]. *)
Definition add_time_rows (in_julian : Q) (times : tensor) : tensor :=
  mapi (fun i row => map (map (fun x => x + inject_Z (Z.of_nat i) * in_julian)%Q) row)
    times.

(** The test of [test_nd2_timestamps]. *)
Definition duplicate_trigger (times : tensor) : bool :=
  negb (length times =? 1) && all_diffs_zero times.

(** [test_nd2_timestamps(times, nd2_file)], with [period_ms] the file's
    [experiment()[0].parameters.periodMs].  The flag is whether the
    adjustment branch ran (it prints "made afjustment"). *)
Definition test_nd2_timestamps (period_ms : Q) (times : tensor) : bool * tensor :=
  if duplicate_trigger times then
    let period_time := (period_ms / 1000)%Q in
    let in_julian := (period_time / (24 * 3600))%Q in
    (true, add_time_rows in_julian times)
  else (false, times).

(** ** [get_position_names_and_inds]

    Stage positions are (x, y) pairs (the z of [stagePositionUm] is not
    read).  [sklearn.metrics.pairwise_distances] on the column of x values
    is the matrix of [|x_i - x_j|], flattened row by row. *)

Definition pairwise_distances_1d (xs : list Q) : list Q :=
  flat_map (fun xi => map (fun xj => Qabs (xi - xj)) xs) xs.

(** [a < b]. *)
Definition Qlt_bool (a b : Q) : bool := negb (Qle_bool b a).

(** [np.logical_and(dists > 2000, dists < 6000)]. *)
Definition nearest_neighbor_window (d : Q) : bool :=
  Qlt_bool 2000 d && Qlt_bool d 6000.

(** [.mean()]; on no distance numpy gives NaN, which makes every lane
    band below empty; here the mean is then 0, which makes every band the
    empty interval (min_x, min_x) as well. *)
Definition Qmean (l : list Q) : Q :=
  (fold_right Qplus 0 l / inject_Z (Z.of_nat (length l)))%Q.

(** [x_pos.min()], which raises on no position. *)
Definition list_min (l : list Q) : option Q :=
  match l with
  | [] => None
  | x :: r => Some (fold_left Qmin r x)
  end.

(** [a[idx] = vals] for an index array [idx]: the assignments are done in
    order. *)
Definition np_setitem {A} (a : list A) (idx : list nat) (vals : list A) : list A :=
  fold_left (fun acc kv => set_nth (fst kv) (snd kv) acc) (combine idx vals) a.

(** Python's [str] of a natural number. *)
Definition nat_str (n : nat) : string := NilZero.string_of_uint (Nat.to_uint n).

(** [f"ch{i+1}-{j}"]. *)
Definition position_label (i j : nat) : string :=
  ("ch" ++ nat_str (S i) ++ "-" ++ nat_str j)%string.

(** Lane [i]: the indices [k] with [min_ < x_k < max_]. *)
Definition lane_members (x_pos : list Q) (min_x mean_diff : Q) (i : nat) : list nat :=
  let mid_ := (min_x + inject_Z (Z.of_nat i) * mean_diff)%Q in
  let std_diff := (mean_diff / 3)%Q in
  let min_ := (mid_ - std_diff)%Q in
  let max_ := (mid_ + std_diff)%Q in
  filter (fun k => Qlt_bool min_ (nth k x_pos 0%Q) && Qlt_bool (nth k x_pos 0%Q) max_)
    (seq 0 (length x_pos)).

Definition stage_y (pos : list (Q * Q)) (k : nat) : Q := snd (nth k pos (0, 0)%Q).

Section Grid.

(** [np.argsort]: any function returning, for a list of keys, a
    permutation of its indices under which the keys are sorted. *)
Variable argsort : list Q -> list nat.

Definition lane_sort_inds (pos : list (Q * Q)) (members : list nat) (invert_y : bool)
    : list nat :=
  let y_pos := map (stage_y pos) members in
  let sort_inds := argsort y_pos in
  if invert_y then rev sort_inds else sort_inds.

(** [nums[tmp_inds][sort_inds]]. *)
Definition lane_order (pos : list (Q * Q)) (members : list nat) (invert_y : bool)
    : list nat :=
  map (fun s => nth s members 0) (lane_sort_inds pos members invert_y).

(** [tmp_channel_names]: the label of the [j]-th of [sort_inds] goes to
    its slot. *)
Definition lane_labels (i : nat) (sort_inds : list nat) : list (option string) :=
  np_setitem (repeat None (length sort_inds)) sort_inds
    (map (fun j => Some (position_label i j)) (seq 1 (length sort_inds))).

(** One pass of the [for i in range(10)] loop on the label array. *)
Definition lane_step (pos : list (Q * Q)) (x_pos : list Q) (min_x mean_diff : Q)
    (invert_y : bool) (channel_names : list (option string)) (i : nat)
    : list (option string) :=
  let members := lane_members x_pos min_x mean_diff i in
  np_setitem channel_names members
    (lane_labels i (lane_sort_inds pos members invert_y)).

(** The positions after the optional negation of x. *)
Definition signed_pos (pos : list (Q * Q)) (invert_x : bool) : list (Q * Q) :=
  if invert_x then map (fun p => (- fst p, snd p)%Q) pos else pos.

Definition lane_pitch (x_pos : list Q) : Q :=
  Qmean (filter nearest_neighbor_window (pairwise_distances_1d x_pos)).

(** [get_position_names_and_inds]: the per-position labels and
    [np.concatenate(total_sort)]; [None] when [x_pos.min()] raises. *)
Definition get_position_names_and_inds (pos0 : list (Q * Q)) (invert_x invert_y : bool)
    : option (list (option string) * list nat) :=
  let pos := signed_pos pos0 invert_x in
  let x_pos := map fst pos in
  let mean_diff := lane_pitch x_pos in
  match list_min x_pos with
  | None => None
  | Some min_x =>
      let channel_names :=
        fold_left (lane_step pos x_pos min_x mean_diff invert_y) (seq 0 10)
          (repeat None (length pos)) in
      let total_sort :=
        map (fun i => lane_order pos (lane_members x_pos min_x mean_diff i) invert_y)
          (seq 0 10) in
      Some (channel_names, concat total_sort)
  end.

End Grid.

(** A concrete [argsort]: a stable merge sort of (key, index) pairs. *)
Module KeyIndexOrder <: Orders.TotalLeBool.
Definition t : Type := (Q * nat)%type.
Definition leb (p q : t) : bool := Qle_bool (fst p) (fst q).
Lemma leb_total : forall p q, leb p q = true \/ leb q p = true.
Proof.
  intros p q. unfold leb. destruct (Qlt_le_dec (fst p) (fst q)) as [H|H].
  - left. apply Qle_bool_iff. apply Qlt_le_weak. exact H.
  - right. apply Qle_bool_iff. exact H.
Qed.
End KeyIndexOrder.

Module KeyIndexSort := Sort KeyIndexOrder.

Definition argsort_stable (ys : list Q) : list nat :=
  map snd (KeyIndexSort.sort (combine ys (seq 0 (length ys)))).

(** The order of y within a lane the spec describes: ascending, or
    descending when [invert_y] is set. *)
Definition y_order (invert_y : bool) : Q -> Q -> Prop :=
  if invert_y then (fun a b : Q => (b <= a)%Q) else Qle.

(** A 3 x 4 grid of stage positions, lanes at x = 0, 4000 and 8000 and
    rows at y = 0, 100, 200 and 300, in a scrambled acquisition order. *)
Definition grid_3x4 : list (Q * Q) :=
  [(4000,300); (0,0); (8000,100); (0,300); (4000,0); (8000,0);
   (0,100); (0,200); (4000,100); (4000,200); (8000,200); (8000,300)]%Q.

(** The labels and order [get_position_names_and_inds] returns on it. *)
Definition grid_3x4_names : list (option string) :=
  [Some "ch2-4"; Some "ch1-1"; Some "ch3-2"; Some "ch1-4"; Some "ch2-1"; Some "ch3-1";
   Some "ch1-2"; Some "ch1-3"; Some "ch2-2"; Some "ch2-3"; Some "ch3-3"; Some "ch3-4"]%string.

Definition grid_3x4_perm : list nat := [1; 6; 7; 3; 4; 8; 9; 0; 5; 2; 10; 11].

(** ** Loop sizes from [_coord_info()]

    An entry [ci] of [nd2_file._rdr._coord_info()] is a triple: its index,
    its loop type [ci[1]] and its size [ci[2]]. *)

Definition coord_entry : Type := (nat * string * nat)%type.

Definition ci_type (ci : coord_entry) : string := snd (fst ci).
Definition ci_size (ci : coord_entry) : nat := snd ci.

(** [get_zstack_size]. *)
Fixpoint get_zstack_size (coord_info : list coord_entry) : nat :=
  match coord_info with
  | [] => 0
  | ci :: rest =>
      if String.eqb (ci_type ci) "ZStackLoop" then ci_size ci
      else get_zstack_size rest
  end.

(** [get_tstack_size]. *)
Fixpoint get_tstack_size (coord_info : list coord_entry) : nat :=
  match coord_info with
  | [] => 0
  | ci :: rest =>
      if String.eqb (ci_type ci) "NETimeLoop" || String.eqb (ci_type ci) "TimeLoop"
      then ci_size ci
      else get_tstack_size rest
  end.

(** [get_xy_size]. *)
Fixpoint get_xy_size (coord_info : list coord_entry) : nat :=
  match coord_info with
  | [] => 0
  | ci :: rest =>
      if String.eqb (ci_type ci) "XYPosLoop" then ci_size ci
      else get_xy_size rest
  end.

(** ** [get_stage_positions]

    An entry of [nd2_file.experiment]: its type and, for an [XYPosLoop],
    the (x, y) of the [stagePositionUm] of its points. *)

Record experiment := mkExp {
  exp_type : string;
  exp_points : list (Q * Q)
}.

(** [get_stage_positions]: the points of the first [XYPosLoop], or the
    empty Python list. *)
Fixpoint get_stage_positions (exps : list experiment) : list (Q * Q) :=
  match exps with
  | [] => []
  | exp :: rest =>
      if String.eqb (exp_type exp) "XYPosLoop" then exp_points exp
      else get_stage_positions rest
  end.

(** ** [get_nd2_files_in_folder]

    What the function reads from an opened [nd2.ND2File]: the
    [_coord_info()] of its reader, the reader's [channel_names()] and the
    last extent of the file's [shape]. *)

Record nd2_info := mkNd2 {
  coord_info : list coord_entry;
  rdr_channel_names : list string;
  last_extent : nat
}.

(** [str.endswith]. *)
Definition endswith (s suffix : string) : bool :=
  let n := String.length s in
  let m := String.length suffix in
  (m <=? n) && String.eqb (substring (n - m) m s) suffix.

(** Python's order on file names: strings compare code point by code
    point, which for the UTF-8 bytes of [string] is the byte order
    [String.leb] uses. *)
Module StringOrder <: Orders.TotalLeBool.
Definition t : Type := string.
Definition leb : t -> t -> bool := String.leb.
Definition leb_total : forall p q, leb p q = true \/ leb q p = true := String.leb_total.
End StringOrder.

Module StringSort := Sort StringOrder.

(** [sorted] on a list of names. *)
Definition sorted_strings (l : list string) : list string := StringSort.sort l.

(** [max(l)], which raises on an empty list. *)
Definition list_max (l : list nat) : option nat :=
  match l with
  | [] => None
  | x :: r => Some (fold_left Nat.max r x)
  end.

(** [np.argmax(l)]: the first index of the largest value; it raises on an
    empty list. *)
Fixpoint argmax_from (l : list nat) (i best bestv : nat) : nat :=
  match l with
  | [] => best
  | x :: r => if bestv <? x then argmax_from r (S i) i x else argmax_from r (S i) best bestv
  end.

Definition np_argmax (l : list nat) : option nat :=
  match l with
  | [] => None
  | x :: r => Some (argmax_from r 1 0 x)
  end.

(** The loop of [get_nd2_files_in_folder] over the [.nd2] names:
    [nd2.ND2File(...)] opens each in turn, and a file it cannot open
    ([None]) aborts the scan. *)
Fixpoint open_nd2_files (open_file : string -> option nd2_info) (names : list string)
    : option (list nd2_info) :=
  match names with
  | [] => Some []
  | f :: r =>
      match open_file f with
      | None => None
      | Some nd2_file =>
          match open_nd2_files open_file r with
          | None => None
          | Some rest => Some (nd2_file :: rest)
          end
      end
  end.

(** [get_nd2_files_in_folder(folder)], given the entries of
    [os.listdir(folder)] and what [nd2.ND2File] makes of each name; the
    result is [(nd2_files, xylen, mlen, zlen, channel_names)]. *)
Definition get_nd2_files_in_folder (open_file : string -> option nd2_info)
    (listing : list string) : option (list nd2_info * nat * nat * nat * list string) :=
  match open_nd2_files open_file
          (filter (fun f => endswith f ".nd2") (sorted_strings listing)) with
  | None => None
  | Some nd2_files =>
  let zstack_sizes := map (fun f => get_zstack_size (coord_info f)) nd2_files in
  let channel_names_list := map rdr_channel_names nd2_files in
  match list_max zstack_sizes with
  | None => None
  | Some zlen =>
      let channel_names_len := map (@length string) channel_names_list in
      match np_argmax channel_names_len with
      | None => None
      | Some ind =>
          let channel_names := nth ind channel_names_list [] in
          match nth_error nd2_files ind with
          | None => None
          | Some f =>
              let xylen := last_extent f in
              let mlen := get_xy_size (coord_info f) in
              Some (nd2_files, xylen, mlen, zlen, channel_names)
          end
      end
  end
  end.

(** ** [color_from_name] *)

(** Python's [sub in s]. *)
Fixpoint contains (sub s : string) : bool :=
  String.prefix sub s ||
  match s with
  | EmptyString => false
  | String _ s' => contains sub s'
  end.

Definition color_from_name (name : string) : string :=
  if contains "GFP" name || contains "epi" name then "green"
  else if contains "mRuby" name then "red"
  else if contains "brightfield" name || contains "Brightfield" name then "gray"
  else "blue".

(** ** Display settings of [LoadWidget._on_click] *)

(** [[x] * n] for a Python int [n]: empty when [n <= 0]. *)
Definition py_list_repeat {A} (x : A) (n : Z) : list A :=
  if (n <=? 0)%Z then [] else repeat x (Z.to_nat n).

(** [self.opacities = [1,] + [0.6,] * (len(self.colors) - 1)]. *)
Definition opacities (ncolors : nat) : list Q :=
  [1%Q] ++ py_list_repeat (6 # 10)%Q (Z.of_nat ncolors - 1).

(** ** The lookup of [write_info]

    [str.split(sep)] for a one-character separator. *)
Fixpoint str_split (sep : ascii) (s : string) : list string :=
  match s with
  | EmptyString => [EmptyString]
  | String a s' =>
      if Ascii.eqb a sep then EmptyString :: str_split sep s'
      else match str_split sep s' with
           | h :: r => String a h :: r
           | [] => [String a EmptyString]
           end
  end.

(** [pos_name.split("-")[0]], the key of [exp_info.channel_infos]. *)
Definition channel_key (pos_name : string) : string :=
  hd EmptyString (str_split "-" pos_name).

(** ** Reordering by the grid order in [LoadWidget._on_click] *)

(** [a[inds]] for an index array: it raises on an index out of range. *)
Fixpoint np_take {A} (a : list A) (inds : list nat) : option (list A) :=
  match inds with
  | [] => Some []
  | k :: r =>
      match nth_error a k, np_take a r with
      | Some x, Some xs => Some (x :: xs)
      | _, _ => None
      end
  end.

(** A folder of three nd2 files and a settings file. *)
Definition folder_listing : list string :=
  ["c.nd2"; "exp-info.yaml"; "a.nd2"; "b.nd2"]%string.

Definition folder_file (f : string) : nd2_info :=
  (if String.eqb f "a.nd2" then mkNd2 [(0, "XYPosLoop", 4)] ["GFP"] 256
  else if String.eqb f "b.nd2" then
    mkNd2 [(0, "NETimeLoop", 3); (1, "XYPosLoop", 12); (2, "ZStackLoop", 5)]
      ["GFP"; "mRuby"] 512
  else mkNd2 [(0, "XYPosLoop", 12); (1, "ZStackLoop", 7)] ["Brightfield"; "GFP"] 512)%string.

Definition folder_open (f : string) : option nd2_info := Some (folder_file f).

(** Two lanes 4000 apart and a position half way between them. *)
Definition grid_outlier : list (Q * Q) := [(0,0); (4000,0); (2000,5)]%Q.

(** Two positions 10000 apart in x: no pair is a nearest-neighbour pair. *)
Definition grid_far : list (Q * Q) := [(0,0); (10000,0)]%Q.

(** * Proofs *)

(** ** numpy type promotion on a few pairs *)

Example promote_u8_u16 : promote_types uint8 uint16 = uint16.
Proof. reflexivity. Qed.
Example promote_i16_u16 : promote_types int16 uint16 = int32.
Proof. reflexivity. Qed.
Example promote_f16_u16 : promote_types float16 uint16 = float32.
Proof. reflexivity. Qed.
Example promote_i64_u64 : promote_types int64 uint64 = float64.
Proof. reflexivity. Qed.

(** ** Lemmas on the array primitives *)

Lemma promote_types_same (d : dtype) : promote_types d d = d.
Proof. destruct d; reflexivity. Qed.

Lemma drop_z_set_nth (x : nat) (idx : list nat) :
  firstn 2 (set_nth 2 x idx) ++ skipn 3 (set_nth 2 x idx) = drop_z idx.
Proof.
  unfold drop_z.
  destruct idx as [|a [|b [|c l]]]; reflexivity.
Qed.

Lemma concat_pick_pad (t p c y x zlen : Z) (dt : dtype) (v : list nat -> Z)
    (idx : list nat) :
  concat_pick 2
    [mkArr [t; p; 1; c; y; x]%Z dt (fun _ => 0%Z);
     mkArr [t; p; 1; c; y; x]%Z dt (fun idx => v (firstn 2 idx ++ skipn 3 idx));
     mkArr [t; p; zlen - 2; c; y; x]%Z uint16 (fun _ => 0%Z)]
    (Z.of_nat (nth 2 idx 0)) idx =
  (if nth 2 idx 0 =? 1 then v (drop_z idx) else 0%Z).
Proof.
  cbn [concat_pick nth ashape aval].
  destruct (nth 2 idx 0) as [|[|n]] eqn:E.
  - reflexivity.
  - cbn -[set_nth firstn skipn]. rewrite drop_z_set_nth. reflexivity.
  - replace (Z.of_nat (S (S n)) <? 1)%Z with false by (symmetry; apply Z.ltb_ge; lia).
    replace (Z.of_nat (S (S n)) - 1 <? 1)%Z with false by (symmetry; apply Z.ltb_ge; lia).
    destruct (Z.of_nat (S (S n)) - 1 - 1 <? zlen - 2)%Z; reflexivity.
Qed.

Lemma same_off_axis_z (t p z1 z2 c y x : Z) :
  same_off_axis 2 [t; p; z1; c; y; x] [t; p; z2; c; y; x] = true.
Proof.
  unfold same_off_axis. simpl. rewrite !Z.eqb_refl. simpl.
  destruct (z1 =? z2)%Z; reflexivity.
Qed.

(** [pad_missing_z] on a rank-5 array with non-negative extents. *)
Lemma pad_missing_z_rank5 (t p c y x zlen : Z) (dt : dtype) (v : list nat -> Z) :
  (0 <= t)%Z -> (0 <= p)%Z -> (0 <= c)%Z -> (0 <= y)%Z -> (0 <= x)%Z ->
  match pad_missing_z (mkArr [t; p; c; y; x] dt v) zlen with
  | Some out =>
      (2 <= zlen)%Z /\
      ashape out = [t; p; zlen; c; y; x]%Z /\
      adtype out = promote_types dt uint16 /\
      (forall idx, aval out idx = (if nth 2 idx 0 =? 1 then v (drop_z idx) else 0%Z))
  | None => (zlen < 2)%Z
  end.
Proof.
  intros Ht Hp Hc Hy Hx.
  apply Z.leb_le in Ht, Hp, Hc, Hy, Hx.
  unfold pad_missing_z, expand_dims, zeros_like, da_zeros, concatenate.
  cbn -[Z.add Z.sub Z.leb promote_types same_off_axis concat_pick].
  rewrite Ht, Hp, Hc, Hy, Hx.
  cbn -[Z.add Z.sub Z.leb promote_types same_off_axis concat_pick].
  destruct (0 <=? zlen - 2)%Z eqn:Hz; cbn -[Z.add Z.sub Z.leb promote_types same_off_axis concat_pick]; [|apply Z.leb_gt in Hz; lia].
  apply Z.leb_le in Hz.
  rewrite !same_off_axis_z. cbn -[Z.add Z.sub promote_types concat_pick].
  rewrite promote_types_same.
  split; [lia | split; [repeat f_equal; lia | split; [reflexivity|]]].
  intros idx. apply concat_pick_pad.
Qed.

(** ** Claims on the shape normaliser *)

(** C1 (amended): for a file without z axis whose array, after the time
    step, has the rank-5 shape (t, p, c, y, x), and a canonical z length
    [zlen >= 2], the normaliser returns an array of shape
    (t, p, zlen, c, y, x) whose z slice 1 holds the file's data and whose
    other z slices (one before, [zlen - 2] after) are zero. *)
Theorem pad_missing_z_places_data_at_1 (t p c y x zlen : Z) (dt : dtype)
    (v : list nat -> Z) :
  (0 <= t)%Z -> (0 <= p)%Z -> (0 <= c)%Z -> (0 <= y)%Z -> (0 <= x)%Z ->
  (2 <= zlen)%Z ->
  exists out,
    pad_missing_z (mkArr [t; p; c; y; x] dt v) zlen = Some out /\
    ashape out = [t; p; zlen; c; y; x]%Z /\
    (forall idx, aval out idx =
                 (if nth 2 idx 0 =? 1 then v (drop_z idx) else 0%Z)).
Proof.
  intros Ht Hp Hc Hy Hx Hz.
  pose proof (pad_missing_z_rank5 t p c y x zlen dt v Ht Hp Hc Hy Hx) as H.
  destruct (pad_missing_z _ zlen) as [out|]; [|lia].
  destruct H as (_ & Hs & _ & Hv).
  exists out. auto.
Qed.

Lemma pad_missing_z_places_data_at_1_witness :
  exists out,
    pad_missing_z (mkArr [2; 3; 2; 4; 4]%Z uint8 (fun _ => 7%Z)) 5 = Some out /\
    ashape out = [2; 3; 5; 2; 4; 4]%Z /\
    (forall idx, aval out idx =
                 (if nth 2 idx 0 =? 1 then (fun _ => 7%Z) (drop_z idx) else 0%Z)).
Proof.
  apply (pad_missing_z_places_data_at_1 2 3 2 4 4 5 uint8 (fun _ => 7%Z)); lia.
Defined.

(** C1, as stated, fails: with canonical z length 5 the spec's centred
    position is z = (5 - 1) / 2 = 2, but there the padded array is zero
    while the file's data is 7 everywhere (the data sits at z = 1). *)
Lemma pad_missing_z_not_centered :
  match pad_missing_z (mkArr [2; 3; 2; 4; 4]%Z uint8 (fun _ => 7%Z)) 5 with
  | Some out =>
      ~ (forall idx, nth 2 idx 0 = Z.to_nat (centered_z_index 5) ->
                     aval out idx = 7%Z)
  | None => False
  end.
Proof.
  vm_compute. intros H.
  specialize (H [0; 0; 2; 0; 0; 0] eq_refl). discriminate H.
Qed.

(** C9: without z axis, the padding succeeds exactly when the canonical z
    length is at least 2; for 0 or 1 the trailing zero block would have a
    negative z extent and dask refuses it. *)
Theorem pad_missing_z_fails_iff_short (t p c y x zlen : Z) (dt : dtype)
    (v : list nat -> Z) :
  (0 <= t)%Z -> (0 <= p)%Z -> (0 <= c)%Z -> (0 <= y)%Z -> (0 <= x)%Z ->
  (pad_missing_z (mkArr [t; p; c; y; x] dt v) zlen = None <-> (zlen < 2)%Z).
Proof.
  intros Ht Hp Hc Hy Hx.
  pose proof (pad_missing_z_rank5 t p c y x zlen dt v Ht Hp Hc Hy Hx) as H.
  destruct (pad_missing_z _ zlen) as [out|].
  - split; [discriminate | lia].
  - split; auto.
Qed.

Lemma pad_missing_z_fails_iff_short_witness :
  (pad_missing_z (mkArr [1; 2; 2; 4; 4]%Z uint16 (fun _ => 1%Z)) 1 = None <-> (1 < 2)%Z) /\
  (pad_missing_z (mkArr [1; 2; 2; 4; 4]%Z uint16 (fun _ => 1%Z)) 0 = None <-> (0 < 2)%Z).
Proof.
  split; apply pad_missing_z_fails_iff_short; lia.
Defined.

(** C10: the padded array's dtype is the promotion of the source dtype
    with [uint16] (the trailing block is [uint16] whatever the source);
    for a [uint8] source it is not the source dtype. *)
Theorem pad_missing_z_dtype (t p c y x zlen : Z) (dt : dtype) (v : list nat -> Z) :
  (0 <= t)%Z -> (0 <= p)%Z -> (0 <= c)%Z -> (0 <= y)%Z -> (0 <= x)%Z ->
  (2 <= zlen)%Z ->
  exists out,
    pad_missing_z (mkArr [t; p; c; y; x] dt v) zlen = Some out /\
    adtype out = promote_types dt uint16 /\
    (dt = uint8 -> adtype out <> dt).
Proof.
  intros Ht Hp Hc Hy Hx Hz.
  pose proof (pad_missing_z_rank5 t p c y x zlen dt v Ht Hp Hc Hy Hx) as H.
  destruct (pad_missing_z _ zlen) as [out|]; [|lia].
  destruct H as (_ & _ & Hd & _).
  exists out. split; [reflexivity|]. split; [exact Hd|].
  intros ->. rewrite Hd. discriminate.
Qed.

Lemma pad_missing_z_dtype_witness :
  exists out,
    pad_missing_z (mkArr [1; 4; 2; 8; 8]%Z int16 (fun _ => 3%Z)) 3 = Some out /\
    adtype out = promote_types int16 uint16 /\
    (int16 = uint8 -> adtype out <> int16).
Proof.
  apply pad_missing_z_dtype; lia.
Defined.

(** C5: with the reader dropping every axis of extent 1, the time axis is
    inserted exactly when the file has no time loop, or a time loop of
    length 1 while it has at least two positions, at least two channels
    and a z loop that is absent or of two or more planes (only then do
    the rank and the z extent tell the dropped time axis apart).  The
    array then starts with a time axis in those cases and when a time
    loop of two or more points comes with some other axis of extent two
    or more. *)
Theorem insert_t_axis_exact (tlen_ plen zlen_ clen ncanon : nat) (axes : list axis) :
  reconcile_axes ncanon (reader_axes tlen_ plen zlen_ clen) = Some axes ->
  (insert_t_axis tlen_ zlen_ (length axes) = true <->
   tlen_ = 0 \/ (tlen_ = 1 /\ 2 <= plen /\ 2 <= clen /\ zlen_ <> 1)) /\
  (hd_error (axes_after_t tlen_ zlen_ axes) = Some AT <->
   tlen_ = 0 \/ (tlen_ = 1 /\ 2 <= plen /\ 2 <= clen /\ zlen_ <> 1) \/
   (2 <= tlen_ /\ (2 <= plen \/ 2 <= zlen_ \/ 2 <= clen))).
Proof.
  unfold reconcile_axes, axes_after_t.
  destruct ncanon as [|nc]; [rewrite andb_false_r; discriminate|].
  rewrite andb_true_r.
  destruct tlen_ as [|[|t]], plen as [|[|p]], zlen_ as [|[|z]], clen as [|[|c]];
    simpl; intros H; try discriminate H; injection H as <-; simpl;
    split; split; intros Hx; try reflexivity;
    try (exfalso; repeat match type of Hx with
                         | _ \/ _ => destruct Hx as [Hx|Hx]
                         | _ /\ _ => destruct Hx as [? Hx]
                         end; lia);
    try discriminate Hx; try lia.
Qed.

Lemma insert_t_axis_exact_witness :
  reconcile_axes 3 (reader_axes 1 3 0 2) = Some [AP; AC; AY; AX] /\
  (insert_t_axis 1 0 (length [AP; AC; AY; AX]) = true <->
   1 = 0 \/ (1 = 1 /\ 2 <= 3 /\ 2 <= 2 /\ 0 <> 1)) /\
  (hd_error (axes_after_t 1 0 [AP; AC; AY; AX]) = Some AT <->
   1 = 0 \/ (1 = 1 /\ 2 <= 3 /\ 2 <= 2 /\ 0 <> 1) \/
   (2 <= 1 /\ (2 <= 3 \/ 2 <= 0 \/ 2 <= 2))).
Proof.
  assert (H : reconcile_axes 3 (reader_axes 1 3 0 2) = Some [AP; AC; AY; AX]) by reflexivity.
  split; [exact H|].
  exact (insert_t_axis_exact 1 3 0 2 3 _ H).
Defined.

(** C5 does not hold as worded: a file with a time loop of length 1, a z
    loop of length 1, two positions and two channels reaches the test
    with the axes (p, c, y, x): the reader dropped its time axis, yet rank
    4 with a non-zero z extent does not trigger the insertion, and the
    array does not start with a time axis. *)
Lemma insert_t_axis_collapsed_missed :
  reconcile_axes 2 (reader_axes 1 2 1 2) = Some [AP; AC; AY; AX] /\
  ~ In AT (reader_axes 1 2 1 2) /\
  insert_t_axis 1 1 (length [AP; AC; AY; AX]) = false /\
  hd_error (axes_after_t 1 1 [AP; AC; AY; AX]) = Some AP.
Proof.
  split; [reflexivity|]. split; [simpl; intuition discriminate|].
  split; reflexivity.
Qed.

(** ** Claims on channel reconciliation *)






(** ** Claims on the timestamp tensor *)

Lemma length_mapi_from {A B} (f : nat -> A -> B) (n : nat) (l : list A) :
  length (mapi_from f n l) = length l.
Proof. revert n; induction l; simpl; auto. Qed.

Lemma nth_mapi_from {A B} (f : nat -> A -> B) (n a : nat) (l : list A) (d : A) (e : B) :
  a < length l -> nth a (mapi_from f n l) e = f (n + a) (nth a l d).
Proof.
  revert n a; induction l as [|x r IH]; intros n a Ha; simpl in *; [lia|].
  destruct a as [|a].
  - rewrite Nat.add_0_r. reflexivity.
  - rewrite IH by lia. f_equal. lia.
Qed.

Lemma Forall_mapi_from {A B} (P : A -> Prop) (Q : B -> Prop) (f : nat -> A -> B)
    (n : nat) (l : list A) :
  (forall i x, P x -> Q (f i x)) -> Forall P l -> Forall Q (mapi_from f n l).
Proof.
  intros Hf H. revert n; induction H; simpl; constructor; auto.
Qed.

Lemma set_cells_rect (tl ml zl : nat) (T : tensor) st sp sz v :
  rect3 tl ml zl T -> rect3 tl ml zl (set_cells T st sp sz v).
Proof.
  intros [Hl HF]. unfold set_cells, mapi. split.
  - rewrite length_mapi_from. exact Hl.
  - eapply Forall_mapi_from; [|exact HF].
    intros a row [Hr Hc]. destruct (st a); [|split; assumption].
    split; [rewrite length_mapi_from; exact Hr|].
    eapply Forall_mapi_from; [|exact Hc].
    intros b col Hcol. destruct (sp b); [|exact Hcol].
    rewrite length_mapi_from. exact Hcol.
Qed.

Lemma cell_set_cells (tl ml zl : nat) (T : tensor) st sp sz v a b c :
  rect3 tl ml zl T -> a < tl -> b < ml -> c < zl ->
  cell (set_cells T st sp sz v) a b c =
  (if st a && sp b && sz c then v else cell T a b c).
Proof.
  intros [Hl HF] Ha Hb Hc. unfold cell, set_cells, mapi.
  assert (Hrow : length (nth a T []) = ml /\
                 Forall (fun col => length col = zl) (nth a T [])).
  { apply (proj1 (Forall_nth _ T) HF a []). lia. }
  destruct Hrow as [Hr Hcs].
  assert (Hcol : length (nth b (nth a T []) []) = zl).
  { apply (proj1 (Forall_nth _ _) Hcs b []). lia. }
  rewrite (nth_mapi_from _ 0 a T []) by lia. simpl.
  destruct (st a); simpl; [|reflexivity].
  rewrite (nth_mapi_from _ 0 b _ []) by lia. simpl.
  destruct (sp b); simpl; [|reflexivity].
  rewrite (nth_mapi_from _ 0 c _ 0%Q) by lia. simpl.
  destruct (sz c); reflexivity.
Qed.

Lemma np_zeros3_rect (tl ml zl : nat) : rect3 tl ml zl (np_zeros3 tl ml zl).
Proof.
  unfold np_zeros3. split; [apply repeat_length|].
  apply Forall_forall. intros row Hrow. apply repeat_spec in Hrow. subst row.
  split; [apply repeat_length|].
  apply Forall_forall. intros col Hcol. apply repeat_spec in Hcol. subst col.
  apply repeat_length.
Qed.

Lemma write_frame_rect (tlen_ zlen_ tl ml zl : nat) coords v T T' :
  rect3 tl ml zl T -> write_frame tlen_ zlen_ tl ml zl coords v T = Some T' ->
  rect3 tl ml zl T'.
Proof.
  intros HT H. unfold write_frame in H.
  repeat match goal with
         | H : context[if ?b then _ else _] |- _ => destruct b
         | H : context[match ?l with _ => _ end] |- _ => destruct l
         end;
  try discriminate;
  injection H as <-; apply set_cells_rect; exact HT.
Qed.

Lemma timestamps_upto_rect coords ftime tlen_ zlen_ mlen zlen (n : nat) T :
  timestamps_upto coords ftime tlen_ zlen_ mlen zlen n = Some T ->
  rect3 (tlen tlen_) mlen zlen T.
Proof.
  revert T; induction n as [|i IH]; intros T H; simpl in H.
  - injection H as <-. apply np_zeros3_rect.
  - destruct (timestamps_upto _ _ _ _ _ _ i) as [T0|] eqn:E; [|discriminate].
    eapply write_frame_rect; [apply IH; reflexivity | exact H].
Qed.

(** C3: frame [i] of the loop writes the frame's timestamp into every cell
    its coordinate tuple addresses (the present coordinates fixed, an absent
    time or z axis over its whole range) and leaves every other cell as it
    was; the tuple has arity 1, 2 or 3 as the time and z axes are absent or
    present, and its indices are within the tensor. *)
Theorem timestamps_frame_write coords ftime tlen_ zlen_ mlen zlen (i : nat) T
    (ot : option nat) (k : nat) (oz : option nat) :
  timestamps_upto coords ftime tlen_ zlen_ mlen zlen i = Some T ->
  present_coords tlen_ zlen_ (coords i) = Some (ot, k, oz) ->
  in_range ot (tlen tlen_) -> k < mlen -> in_range oz zlen ->
  exists T',
    timestamps_upto coords ftime tlen_ zlen_ mlen zlen (S i) = Some T' /\
    (forall a b c, a < tlen tlen_ -> b < mlen -> c < zlen ->
       cell T' a b c =
       (if sel ot a && (k =? b) && sel oz c then ftime i else cell T a b c)).
Proof.
  intros HT Hpc Hot Hk Hoz.
  pose proof (timestamps_upto_rect _ _ _ _ _ _ _ _ HT) as Hrect.
  simpl. rewrite HT. unfold write_frame.
  unfold present_coords in Hpc.
  destruct (tlen_ =? 0), (zlen_ =? 0); simpl;
  destruct (coords i) as [|x1 [|x2 [|x3 [|x4 r]]]]; try discriminate;
  injection Hpc as <- <- <-; simpl in Hot, Hoz; simpl;
  repeat match goal with
         | H : ?n < ?m |- context[?n <? ?m] =>
             rewrite (proj2 (Nat.ltb_lt n m) H)
         end; simpl;
  eexists; (split; [reflexivity|]);
  intros a b c Ha Hb Hc;
  rewrite (cell_set_cells _ _ _ _ _ _ _ _ _ _ _ Hrect Ha Hb Hc); simpl;
  try rewrite orb_false_r; try rewrite (Nat.eqb_sym b x1); reflexivity.
Qed.

Lemma timestamps_frame_write_witness :
  exists T',
    timestamps_upto (fun i => [i]) (fun i => inject_Z (Z.of_nat i + 5)) 0 0 2 3 1 = Some T' /\
    (forall a b c, a < tlen 0 -> b < 2 -> c < 3 ->
       cell T' a b c =
       (if sel None a && (0 =? b) && sel None c
        then inject_Z (Z.of_nat 0 + 5) else cell (np_zeros3 1 2 3) a b c)).
Proof.
  apply (timestamps_frame_write (fun i => [i]) (fun i => inject_Z (Z.of_nat i + 5))
           0 0 2 3 0 (np_zeros3 1 2 3) None 0 None);
    [reflexivity | reflexivity | exact I | lia | exact I].
Defined.

(** ** Claims on the duplicate timestamp correction *)

Example test_nd2_timestamps_two_rows :
  fst (test_nd2_timestamps 86400000 [[[5]]; [[5]]]%Q) = true /\
  Qeq_bool (cell (snd (test_nd2_timestamps 86400000 [[[5]]; [[5]]]%Q)) 1 0 0) 6 = true.
Proof. split; reflexivity. Qed.

Lemma forallb_zip_with {A B C} (P : C -> bool) (f : A -> B -> C) (xs : list A)
    (ys : list B) (dx : A) (dy : B) :
  length xs = length ys ->
  (forallb P (zip_with f xs ys) = true <->
   forall i, i < length xs -> P (f (nth i xs dx) (nth i ys dy)) = true).
Proof.
  revert ys; induction xs as [|x xs IH]; intros [|y ys] Hl; simpl in *;
    try discriminate.
  - split; [intros _ i Hi; lia | reflexivity].
  - injection Hl as Hl. rewrite andb_true_iff, IH by exact Hl. split.
    + intros [H0 H] [|i] Hi; [exact H0|]. apply H. lia.
    + intros H. split; [apply (H 0); lia|]. intros i Hi. apply (H (S i)). lia.
Qed.

(** Two rows of shape (ml, zl) pass the test exactly when they agree
    cell by cell. *)
Lemma rows_same_cells (ml zl : nat) (r' r : list (list Q)) :
  length r' = ml -> Forall (fun col => length col = zl) r' ->
  length r = ml -> Forall (fun col => length col = zl) r ->
  (forallb (forallb (fun d => Qeq_bool d 0)) (zip_with (zip_with Qminus) r' r) = true <->
   forall b c, b < ml -> c < zl -> (nth c (nth b r' []) 0 - nth c (nth b r []) 0 == 0)%Q).
Proof.
  intros Hl' Hc' Hl Hc.
  rewrite (forallb_zip_with _ _ r' r [] []) by congruence.
  split.
  - intros H b c Hb Hc0.
    specialize (H b ltac:(lia)).
    assert (E1 : length (nth b r' []) = zl) by (apply (proj1 (Forall_nth _ _) Hc' b []); lia).
    assert (E2 : length (nth b r []) = zl) by (apply (proj1 (Forall_nth _ _) Hc b []); lia).
    rewrite (forallb_zip_with _ _ _ _ 0%Q 0%Q) in H by congruence.
    apply Qeq_bool_iff. apply H. lia.
  - intros H b Hb.
    assert (E1 : length (nth b r' []) = zl) by (apply (proj1 (Forall_nth _ _) Hc' b []); lia).
    assert (E2 : length (nth b r []) = zl) by (apply (proj1 (Forall_nth _ _) Hc b []); lia).
    rewrite (forallb_zip_with _ _ _ _ 0%Q 0%Q) by congruence.
    intros c Hc0. apply Qeq_bool_iff. apply H; lia.
Qed.

(** On a tensor of shape (tl, ml, zl) the test reads: every cell equals the
    cell one timepoint before it. *)
Lemma all_diffs_zero_cells (tl ml zl : nat) (T : tensor) :
  rect3 tl ml zl T ->
  (all_diffs_zero T = true <->
   forall a b c, S a < tl -> b < ml -> c < zl ->
     (cell T (S a) b c - cell T a b c == 0)%Q).
Proof.
  revert tl; induction T as [|r rest IH]; intros tl [Hl HF].
  - simpl in Hl. subst tl. split; [intros _ a b c Ha; lia | reflexivity].
  - simpl in Hl. apply Forall_cons_iff in HF. destruct HF as [[Hr Hc] HF'].
    destruct rest as [|r' rest'].
    + split; [intros _ a b c Ha; simpl in Hl, Ha; lia | reflexivity].
    + pose proof HF' as HF0. apply Forall_cons_iff in HF0.
      destruct HF0 as [[Hr' Hc'] HF''].
      change (all_diffs_zero (r :: r' :: rest')) with
        (forallb (forallb (fun d => Qeq_bool d 0)) (zip_with (zip_with Qminus) r' r)
         && all_diffs_zero (r' :: rest')).
      rewrite andb_true_iff, (rows_same_cells ml zl r' r Hr' Hc' Hr Hc).
      rewrite (IH (length (r' :: rest'))) by (split; [reflexivity | assumption]).
      split.
      * intros [H0 H] [|a] b c Ha Hb Hc0; [apply H0; assumption|].
        apply H; simpl in *; lia.
      * intros H. split.
        -- intros b c Hb Hc0. apply (H 0 b c); simpl in *; lia.
        -- intros a b c Ha Hb Hc0. apply (H (S a) b c); simpl in *; lia.
Qed.

Lemma add_time_rows_rect (tl ml zl : nat) (d : Q) (T : tensor) :
  rect3 tl ml zl T -> rect3 tl ml zl (add_time_rows d T).
Proof.
  intros [Hl HF]. unfold add_time_rows, mapi. split.
  - rewrite length_mapi_from. exact Hl.
  - eapply Forall_mapi_from; [|exact HF].
    intros i row [Hr Hc]. split; [rewrite length_map; exact Hr|].
    apply Forall_map. eapply Forall_impl; [|exact Hc].
    intros col Hcol. rewrite length_map. exact Hcol.
Qed.

Lemma cell_add_time_rows (tl ml zl : nat) (d : Q) (T : tensor) a b c :
  rect3 tl ml zl T -> a < tl -> b < ml -> c < zl ->
  cell (add_time_rows d T) a b c = (cell T a b c + inject_Z (Z.of_nat a) * d)%Q.
Proof.
  intros [Hl HF] Ha Hb Hc. unfold cell, add_time_rows, mapi.
  assert (Hrow : length (nth a T []) = ml /\
                 Forall (fun col => length col = zl) (nth a T [])).
  { apply (proj1 (Forall_nth _ T) HF a []). lia. }
  destruct Hrow as [Hr Hcs].
  assert (Hcol : length (nth b (nth a T []) []) = zl).
  { apply (proj1 (Forall_nth _ _) Hcs b []). lia. }
  rewrite (nth_mapi_from _ 0 a T []) by lia. simpl.
  rewrite (nth_indep _ [] (map (fun x => x + inject_Z (Z.of_nat a) * d)%Q []))
    by (rewrite length_map; lia).
  rewrite (map_nth (map (fun x => (x + inject_Z (Z.of_nat a) * d)%Q)) (nth a T []) [] b).
  rewrite (nth_indep _ 0%Q ((fun x => x + inject_Z (Z.of_nat a) * d)%Q 0%Q))
    by (rewrite length_map; lia).
  rewrite (map_nth (fun x => (x + inject_Z (Z.of_nat a) * d)%Q)). reflexivity.
Qed.

(** C2 (amended): the correction runs exactly when the number of
    timepoints is not 1 and every successive difference along time is
    zero (an empty tensor passes this test and is returned with nothing to
    change); when it runs, cell (i, p, z) is increased by
    i * (periodMs / 1000) / 86400; otherwise the very input tensor is
    returned. *)
Theorem test_nd2_timestamps_spec (period_ms : Q) (tl ml zl : nat) (times : tensor) :
  rect3 tl ml zl times ->
  fst (test_nd2_timestamps period_ms times) =
    negb (tl =? 1) && all_diffs_zero times /\
  (fst (test_nd2_timestamps period_ms times) = true ->
   forall a b c, a < tl -> b < ml -> c < zl ->
     cell (snd (test_nd2_timestamps period_ms times)) a b c =
     (cell times a b c + inject_Z (Z.of_nat a) * (period_ms / 1000 / 86400))%Q) /\
  (fst (test_nd2_timestamps period_ms times) = false ->
   snd (test_nd2_timestamps period_ms times) = times).
Proof.
  intros Hr. pose proof Hr as [Hl _].
  unfold test_nd2_timestamps, duplicate_trigger. rewrite Hl.
  destruct (negb (tl =? 1) && all_diffs_zero times); simpl.
  - split; [reflexivity|]. split; [|discriminate].
    intros _ a b c Ha Hb Hc. apply (cell_add_time_rows tl ml zl); assumption.
  - split; [reflexivity|]. split; [discriminate|]. reflexivity.
Qed.

Lemma test_nd2_timestamps_spec_witness :
  fst (test_nd2_timestamps 500 [[[7; 7]]; [[7; 7]]; [[7; 7]]]%Q) =
    negb (3 =? 1) && all_diffs_zero [[[7; 7]]; [[7; 7]]; [[7; 7]]]%Q /\
  (fst (test_nd2_timestamps 500 [[[7; 7]]; [[7; 7]]; [[7; 7]]]%Q) = true ->
   forall a b c, a < 3 -> b < 1 -> c < 2 ->
     cell (snd (test_nd2_timestamps 500 [[[7; 7]]; [[7; 7]]; [[7; 7]]]%Q)) a b c =
     (cell [[[7; 7]]; [[7; 7]]; [[7; 7]]]%Q a b c
      + inject_Z (Z.of_nat a) * (500 / 1000 / 86400))%Q) /\
  (fst (test_nd2_timestamps 500 [[[7; 7]]; [[7; 7]]; [[7; 7]]]%Q) = false ->
   snd (test_nd2_timestamps 500 [[[7; 7]]; [[7; 7]]; [[7; 7]]]%Q) =
   [[[7; 7]]; [[7; 7]]; [[7; 7]]]%Q).
Proof.
  apply (test_nd2_timestamps_spec 500 3 1 2).
  split; [reflexivity|]. repeat constructor.
Defined.

(** C2, as stated, fails on a tensor with no timepoint: it does not have
    more than one timepoint, yet the adjustment branch runs. *)
Lemma test_nd2_timestamps_runs_on_empty :
  fst (test_nd2_timestamps 1000 []) = true /\ ~ (1 < length ([] : tensor)).
Proof. split; [reflexivity | simpl; lia]. Qed.

(** After the correction of a tensor whose rows were all equal, successive
    rows differ by the step [d] in every cell. *)
Lemma add_time_rows_step (tl ml zl : nat) (d : Q) (times : tensor) :
  rect3 tl ml zl times -> all_diffs_zero times = true ->
  forall a b c, S a < tl -> b < ml -> c < zl ->
    (cell (add_time_rows d times) (S a) b c - cell (add_time_rows d times) a b c == d)%Q.
Proof.
  intros Hr Hz a b c Ha Hb Hc.
  pose proof (proj1 (all_diffs_zero_cells tl ml zl times Hr) Hz a b c Ha Hb Hc) as H.
  rewrite (cell_add_time_rows tl ml zl d times (S a)) by (assumption || lia).
  rewrite (cell_add_time_rows tl ml zl d times a) by (assumption || lia).
  rewrite Nat2Z.inj_succ, <- Z.add_1_r, inject_Z_plus.
  set (x1 := cell times (S a) b c) in *. set (x0 := cell times a b c) in *.
  set (k := inject_Z (Z.of_nat a)).
  assert (E : (x1 + (k + inject_Z 1) * d - (x0 + k * d) == (x1 - x0) + d)%Q) by ring.
  rewrite E, H. ring.
Qed.

(** A second trigger on the corrected tensor forces a zero step. *)
Lemma retrigger_zero_step (tl ml zl : nat) (d : Q) (times : tensor) :
  rect3 tl ml zl times -> all_diffs_zero times = true ->
  2 <= tl -> 0 < ml -> 0 < zl ->
  all_diffs_zero (add_time_rows d times) = true -> (d == 0)%Q.
Proof.
  intros Hr Hz Ht Hm Hzl Hz'.
  pose proof (add_time_rows_rect tl ml zl d times Hr) as Hr'.
  pose proof (proj1 (all_diffs_zero_cells tl ml zl _ Hr') Hz' 0 0 0
                ltac:(lia) Hm Hzl) as H0.
  pose proof (add_time_rows_step tl ml zl d times Hr Hz 0 0 0 ltac:(lia) Hm Hzl) as H1.
  rewrite H0 in H1. symmetry. exact H1.
Qed.

(** C8 (amended): running the correction again on its own output changes
    no timestamp; and when the configured period is positive and the
    tensor has two or more timepoints and at least one (position, z) cell,
    the second run does not trigger at all (the corrected timestamps
    strictly increase along time) and returns the tensor itself. *)
Theorem test_nd2_timestamps_twice (period_ms : Q) (tl ml zl : nat) (times : tensor) :
  rect3 tl ml zl times ->
  fst (test_nd2_timestamps period_ms times) = true ->
  (forall a b c, a < tl -> b < ml -> c < zl ->
     (cell (snd (test_nd2_timestamps period_ms (snd (test_nd2_timestamps period_ms times))))
        a b c
      == cell (snd (test_nd2_timestamps period_ms times)) a b c)%Q) /\
  ((0 < period_ms)%Q -> 2 <= tl -> 0 < ml -> 0 < zl ->
     fst (test_nd2_timestamps period_ms (snd (test_nd2_timestamps period_ms times))) = false /\
     snd (test_nd2_timestamps period_ms (snd (test_nd2_timestamps period_ms times))) =
       snd (test_nd2_timestamps period_ms times) /\
     (forall a b c, S a < tl -> b < ml -> c < zl ->
        (cell (snd (test_nd2_timestamps period_ms times)) a b c
         < cell (snd (test_nd2_timestamps period_ms times)) (S a) b c)%Q)).
Proof.
  intros Hr Htrig.
  pose proof Hr as [Hl _].
  unfold test_nd2_timestamps in *.
  destruct (duplicate_trigger times) eqn:Et; [|discriminate]. clear Htrig. simpl.
  unfold duplicate_trigger in Et. rewrite Hl in Et.
  apply andb_true_iff in Et. destruct Et as [Ht1 Hz].
  apply negb_true_iff, Nat.eqb_neq in Ht1.
  set (d := (period_ms / 1000 / (24 * 3600))%Q).
  pose proof (add_time_rows_rect tl ml zl d times Hr) as Hr'.
  pose proof Hr' as [Hl' _].
  split.
  - intros a b c Ha Hb Hc.
    destruct (duplicate_trigger (add_time_rows d times)) eqn:E2; simpl; [|reflexivity].
    unfold duplicate_trigger in E2. rewrite Hl' in E2.
    apply andb_true_iff in E2. destruct E2 as [_ Hz'].
    assert (Hd : (d == 0)%Q) by (apply (retrigger_zero_step tl ml zl d times); auto; lia).
    rewrite (cell_add_time_rows tl ml zl d _ a b c Hr' Ha Hb Hc).
    assert (E : (inject_Z (Z.of_nat a) * d == 0)%Q) by (rewrite Hd; ring).
    rewrite E. ring.
  - intros Hp Ht Hm Hzl.
    assert (Hdpos : (0 < d)%Q).
    { unfold d. apply Qlt_shift_div_l; [reflexivity|].
      apply Qlt_shift_div_l; [reflexivity|]. lra. }
    destruct (duplicate_trigger (add_time_rows d times)) eqn:E2; simpl.
    + exfalso. unfold duplicate_trigger in E2. rewrite Hl' in E2.
      apply andb_true_iff in E2. destruct E2 as [_ Hz'].
      pose proof (retrigger_zero_step tl ml zl d times Hr Hz Ht Hm Hzl Hz') as Hd.
      rewrite Hd in Hdpos. apply (Qlt_irrefl 0). exact Hdpos.
    + split; [reflexivity|]. split; [reflexivity|].
      intros a b c Ha Hb Hc.
      pose proof (add_time_rows_step tl ml zl d times Hr Hz a b c Ha Hb Hc) as Hs.
      lra.
Qed.

Lemma test_nd2_timestamps_twice_witness :
  (forall a b c, a < 3 -> b < 1 -> c < 2 ->
     (cell (snd (test_nd2_timestamps 500
               (snd (test_nd2_timestamps 500 [[[7; 7]]; [[7; 7]]; [[7; 7]]]%Q)))) a b c
      == cell (snd (test_nd2_timestamps 500 [[[7; 7]]; [[7; 7]]; [[7; 7]]]%Q)) a b c)%Q) /\
  ((0 < 500)%Q -> 2 <= 3 -> 0 < 1 -> 0 < 2 ->
     fst (test_nd2_timestamps 500
            (snd (test_nd2_timestamps 500 [[[7; 7]]; [[7; 7]]; [[7; 7]]]%Q))) = false /\
     snd (test_nd2_timestamps 500
            (snd (test_nd2_timestamps 500 [[[7; 7]]; [[7; 7]]; [[7; 7]]]%Q))) =
       snd (test_nd2_timestamps 500 [[[7; 7]]; [[7; 7]]; [[7; 7]]]%Q) /\
     (forall a b c, S a < 3 -> b < 1 -> c < 2 ->
        (cell (snd (test_nd2_timestamps 500 [[[7; 7]]; [[7; 7]]; [[7; 7]]]%Q)) a b c
         < cell (snd (test_nd2_timestamps 500 [[[7; 7]]; [[7; 7]]; [[7; 7]]]%Q)) (S a) b c)%Q)).
Proof.
  apply (test_nd2_timestamps_twice 500 3 1 2).
  - split; [reflexivity|]. repeat constructor.
  - reflexivity.
Defined.

(** C8, as stated, fails for a zero period ([periodMs = 0]): the corrected
    tensor still has equal rows, so the second run detects the duplicate
    run again. *)
Lemma test_nd2_timestamps_zero_period_retriggers :
  fst (test_nd2_timestamps 0 [[[5]]; [[5]]]%Q) = true /\
  fst (test_nd2_timestamps 0 (snd (test_nd2_timestamps 0 [[[5]]; [[5]]]%Q))) = true.
Proof. split; reflexivity. Qed.

(** ** Claims on the stage position grid *)

Lemma map_nth_seq_self {A} (l : list A) (d : A) :
  map (fun s => nth s l d) (seq 0 (length l)) = l.
Proof.
  induction l as [|x r IH]; [reflexivity|].
  simpl. f_equal. rewrite <- seq_shift, map_map. simpl. exact IH.
Qed.

Lemma map_snd_combine_seq {A} (ys : list A) (s : nat) :
  map snd (combine ys (seq s (length ys))) = seq s (length ys).
Proof.
  revert s; induction ys as [|y r IH]; intros s; [reflexivity|].
  simpl. f_equal. apply IH.
Qed.

Lemma combine_seq_key (ys : list Q) (p : Q * nat) :
  In p (combine ys (seq 0 (length ys))) -> nth (snd p) ys 0%Q = fst p.
Proof.
  intros Hin. apply (In_nth _ _ (0%Q, 0)) in Hin. destruct Hin as [i [Hi Hp]].
  rewrite combine_nth in Hp by (rewrite length_seq; reflexivity).
  rewrite length_combine, length_seq, Nat.min_id in Hi.
  rewrite seq_nth in Hp by exact Hi. subst p. reflexivity.
Qed.

Lemma Sorted_map_fst (L : list (Q * nat)) :
  Sorted (fun p q => is_true (KeyIndexOrder.leb p q)) L -> Sorted Qle (map fst L).
Proof.
  induction 1 as [|p L HS IH Hhd]; simpl; constructor; [exact IH|].
  destruct Hhd as [|q L' Hpq]; simpl; constructor.
  apply Qle_bool_iff. exact Hpq.
Qed.

Lemma argsort_stable_perm (ys : list Q) :
  Permutation (argsort_stable ys) (seq 0 (length ys)).
Proof.
  unfold argsort_stable. rewrite <- (map_snd_combine_seq ys 0) at 2.
  apply Permutation_map. symmetry. apply KeyIndexSort.Permuted_sort.
Qed.

Lemma argsort_stable_sorted (ys : list Q) :
  Sorted Qle (map (fun i => nth i ys 0%Q) (argsort_stable ys)).
Proof.
  unfold argsort_stable. rewrite map_map.
  rewrite (map_ext_in _ fst).
  - apply Sorted_map_fst. apply KeyIndexSort.Sorted_sort.
  - intros p Hp. apply combine_seq_key.
    apply (Permutation_in _ (Permutation_sym (KeyIndexSort.Permuted_sort _))).
    exact Hp.
Qed.

Lemma StronglySorted_snoc {A} (R : A -> A -> Prop) (l : list A) (a : A) :
  StronglySorted R l -> Forall (fun x => R x a) l -> StronglySorted R (l ++ [a]).
Proof.
  induction 1 as [|x l HS IH Hx]; intros Hf; simpl.
  - repeat constructor.
  - inversion Hf as [|? ? Hxa Hf']; subst.
    constructor; [apply IH; exact Hf'|].
    apply Forall_app. split; [exact Hx | constructor; [exact Hxa | constructor]].
Qed.

Lemma Sorted_rev_Qge (l : list Q) :
  Sorted Qle l -> Sorted (y_order true) (rev l).
Proof.
  intros H. apply StronglySorted_Sorted.
  apply Sorted_StronglySorted in H; [|intros x y z; apply Qle_trans].
  induction H as [|x l HS IH Hx]; simpl; [constructor|].
  apply StronglySorted_snoc; [exact IH|].
  apply Forall_rev. exact Hx.
Qed.

Lemma nth_map_seq0 {A} (f : nat -> A) (n i : nat) (d : A) :
  i < n -> nth i (map f (seq 0 n)) d = f i.
Proof.
  intros H. rewrite (nth_indep _ d (f 0)) by (rewrite length_map, length_seq; lia).
  rewrite map_nth, seq_nth by lia. reflexivity.
Qed.

Lemma nth_error_set_nth {A} (n : nat) (x : A) (l : list A) (k : nat) (v : A) :
  nth_error (set_nth n x l) k = Some v -> nth_error l k = Some v \/ (k = n /\ v = x).
Proof.
  revert n k. induction l as [|h t IH]; intros n k H.
  - destruct n, k; cbn in H; discriminate H.
  - destruct n as [|n], k as [|k]; simpl in H |- *.
    + right. split; [reflexivity | congruence].
    + left. exact H.
    + left. exact H.
    + destruct (IH n k H) as [H'|[-> ->]]; [left; exact H' | right; split; reflexivity].
Qed.

Lemma nth_error_np_setitem {A} (a : list A) (idx : list nat) (vals : list A) (k : nat) (v : A) :
  nth_error (np_setitem a idx vals) k = Some v ->
  nth_error a k = Some v \/
  exists t, nth_error idx t = Some k /\ nth_error vals t = Some v.
Proof.
  unfold np_setitem. revert a vals.
  induction idx as [|n idx IH]; intros a vals H.
  - left. exact H.
  - destruct vals as [|x vals]; [left; exact H|].
    simpl in H. destruct (IH _ _ H) as [H'|[t [H1 H2]]].
    + apply nth_error_set_nth in H' as [H'|[-> ->]].
      * left. exact H'.
      * right. exists 0. split; reflexivity.
    + right. exists (S t). split; assumption.
Qed.

Lemma fold_left_invariant {A B} (P : A -> Prop) (f : A -> B -> A) (l : list B) (a : A) :
  P a -> (forall a b, In b l -> P a -> P (f a b)) -> P (fold_left f l a).
Proof.
  revert a. induction l as [|b l IH]; intros a Ha Hf; simpl.
  - exact Ha.
  - apply IH.
    + apply Hf; [left; reflexivity | exact Ha].
    + intros a' b' Hin. apply Hf. right. exact Hin.
Qed.

Lemma nth_error_repeat_val {A} (x : A) (n k : nat) (v : A) :
  nth_error (repeat x n) k = Some v -> v = x.
Proof.
  intros H. apply nth_error_In, repeat_spec in H. exact H.
Qed.

Lemma lane_labels_some (i : nat) (sort_inds : list nat) (t' : nat) (s : string) :
  nth_error (lane_labels i sort_inds) t' = Some (Some s) ->
  exists t, nth_error sort_inds t = Some t' /\ s = position_label i (S t).
Proof.
  unfold lane_labels. intros H.
  apply nth_error_np_setitem in H as [H|[t [H1 H2]]].
  - apply nth_error_repeat_val in H. discriminate H.
  - exists t. split; [exact H1|].
    rewrite nth_error_map in H2.
    destruct (nth_error (seq 1 (length sort_inds)) t) as [n|] eqn:E; [|discriminate H2].
    simpl in H2. injection H2 as <-.
    assert (Ht : t < length (seq 1 (length sort_inds))) by
      (apply nth_error_Some; rewrite E; discriminate).
    rewrite length_seq in Ht.
    apply (nth_error_nth _ _ 0) in E. rewrite seq_nth in E by exact Ht.
    rewrite <- E. reflexivity.
Qed.

Section GridProofs.

Variable argsort : list Q -> list nat.
Hypothesis argsort_perm : forall ys, Permutation (argsort ys) (seq 0 (length ys)).
Hypothesis argsort_sorted :
  forall ys, Sorted Qle (map (fun i => nth i ys 0%Q) (argsort ys)).

Lemma lane_sort_inds_perm pos members invert_y :
  Permutation (lane_sort_inds argsort pos members invert_y) (seq 0 (length members)).
Proof.
  unfold lane_sort_inds.
  rewrite <- (length_map (stage_y pos) members).
  destruct invert_y; [rewrite <- Permutation_rev|]; apply argsort_perm.
Qed.

Lemma lane_order_perm pos members invert_y :
  Permutation (lane_order argsort pos members invert_y) members.
Proof.
  unfold lane_order.
  rewrite <- (map_nth_seq_self members 0) at 2.
  apply Permutation_map, lane_sort_inds_perm.
Qed.

Lemma lane_order_sorted pos members invert_y :
  Sorted (y_order invert_y)
    (map (stage_y pos) (lane_order argsort pos members invert_y)).
Proof.
  unfold lane_order. rewrite map_map.
  set (y_pos := map (stage_y pos) members).
  assert (E : forall sinds, (forall s, In s sinds -> s < length members) ->
            map (fun s => stage_y pos (nth s members 0)) sinds =
            map (fun i => nth i y_pos 0%Q) sinds).
  { intros sinds Hs. apply map_ext_in. intros s Hin. unfold y_pos.
    rewrite (nth_indep _ 0%Q (stage_y pos 0)) by (rewrite length_map; auto).
    rewrite map_nth. reflexivity. }
  rewrite E.
  2: { intros s Hin. apply (Permutation_in _ (lane_sort_inds_perm pos members invert_y))
         in Hin. apply in_seq in Hin. lia. }
  unfold lane_sort_inds. fold y_pos.
  destruct invert_y; unfold y_order.
  - rewrite map_rev. apply Sorted_rev_Qge. apply argsort_sorted.
  - apply argsort_sorted.
Qed.

(** C6: the returned order is the concatenation, over the lanes
    k = 0 .. 9 in turn (centre min_x + k * pitch), of the lane's member
    indices (the positions whose x lies strictly within pitch / 3 of the
    centre, pitch being the mean of the x distances in (2000, 6000)),
    each lane's members ordered by y, ascending, or descending with
    [invert_y].  [np.argsort] is any function returning a sorting
    permutation of the indices.  On no position the code raises. *)
Theorem get_position_order_by_lanes (pos0 : list (Q * Q)) (invert_x invert_y : bool) :
  match get_position_names_and_inds argsort pos0 invert_x invert_y with
  | None => pos0 = []
  | Some (_, perm) =>
      exists min_x Ls,
        list_min (map fst (signed_pos pos0 invert_x)) = Some min_x /\
        length Ls = 10 /\ perm = concat Ls /\
        (forall i, i < 10 ->
           Permutation (nth i Ls [])
             (lane_members (map fst (signed_pos pos0 invert_x)) min_x
                (lane_pitch (map fst (signed_pos pos0 invert_x))) i) /\
           Sorted (y_order invert_y)
             (map (stage_y (signed_pos pos0 invert_x)) (nth i Ls [])))
  end.
Proof.
  unfold get_position_names_and_inds.
  destruct (list_min (map fst (signed_pos pos0 invert_x))) as [min_x|] eqn:E.
  - exists min_x, (map (fun i => lane_order argsort (signed_pos pos0 invert_x)
               (lane_members (map fst (signed_pos pos0 invert_x)) min_x
                  (lane_pitch (map fst (signed_pos pos0 invert_x))) i) invert_y)
             (seq 0 10)).
    split; [reflexivity|].
    split; [rewrite length_map, length_seq; reflexivity|].
    split; [reflexivity|].
    intros i Hi.
    rewrite nth_map_seq0 by exact Hi.
    split; [apply lane_order_perm | apply lane_order_sorted].
  - destruct pos0 as [|p r]; [reflexivity|].
    destruct invert_x; discriminate E.
Qed.

(** C7: a position that gets a label gets ["ch{i+1}-{j+1}"], where
    lane [i] (of 0 .. 9) contains it and it is the [j]-th (from 0) of the
    lane's members in their y order (ascending, or descending with
    [invert_y]).  The code writes "ch", not "lane". *)
Theorem get_position_labels_form (pos0 : list (Q * Q)) (invert_x invert_y : bool)
    (names : list (option string)) (perm : list nat) (k : nat) (s : string) :
  get_position_names_and_inds argsort pos0 invert_x invert_y = Some (names, perm) ->
  nth_error names k = Some (Some s) ->
  let pos := signed_pos pos0 invert_x in
  let x_pos := map fst pos in
  exists min_x i j,
    list_min x_pos = Some min_x /\ i < 10 /\
    s = ("ch" ++ nat_str (S i) ++ "-" ++ nat_str (S j))%string /\
    let members := lane_members x_pos min_x (lane_pitch x_pos) i in
    In k members /\
    nth_error (lane_order argsort pos members invert_y) j = Some k /\
    Sorted (y_order invert_y) (map (stage_y pos) (lane_order argsort pos members invert_y)).
Proof.
  intros H Hk pos x_pos.
  unfold get_position_names_and_inds in H. fold pos x_pos in H.
  destruct (list_min x_pos) as [min_x|] eqn:E; [|discriminate H].
  remember (fold_left _ (seq 0 10) _) as F eqn:HF in H.
  injection H as Hn _. subst names. exists min_x.
  revert k s Hk. rewrite HF.
  apply fold_left_invariant.
  - intros k s Hk. apply nth_error_repeat_val in Hk. discriminate Hk.
  - intros acc i Hi IH k s Hk.
    unfold lane_step in Hk.
    apply nth_error_np_setitem in Hk as [Hk|[t' [H1 H2]]].
    + exact (IH k s Hk).
    + apply lane_labels_some in H2 as [t [Ht ->]].
      exists i, t. apply in_seq in Hi.
      split; [reflexivity|]. split; [lia|]. split; [reflexivity|].
      cbv zeta. split; [|split].
      * exact (nth_error_In _ _ H1).
      * unfold lane_order. rewrite nth_error_map, Ht. simpl.
        f_equal. apply nth_error_nth. exact H1.
      * apply lane_order_sorted.
Qed.

End GridProofs.

Lemma get_position_order_by_lanes_witness :
  (forall ys, Permutation (argsort_stable ys) (seq 0 (length ys))) /\
  (forall ys, Sorted Qle (map (fun i => nth i ys 0%Q) (argsort_stable ys))) /\
  get_position_names_and_inds argsort_stable grid_3x4 false false
    = Some (grid_3x4_names, grid_3x4_perm) /\
  match get_position_names_and_inds argsort_stable grid_3x4 false false with
  | None => grid_3x4 = []
  | Some (_, perm) =>
      exists min_x Ls,
        list_min (map fst (signed_pos grid_3x4 false)) = Some min_x /\
        length Ls = 10 /\ perm = concat Ls /\
        (forall i, i < 10 ->
           Permutation (nth i Ls [])
             (lane_members (map fst (signed_pos grid_3x4 false)) min_x
                (lane_pitch (map fst (signed_pos grid_3x4 false))) i) /\
           Sorted (y_order false)
             (map (stage_y (signed_pos grid_3x4 false)) (nth i Ls [])))
  end.
Proof.
  split; [exact argsort_stable_perm|].
  split; [exact argsort_stable_sorted|].
  split; [vm_compute; reflexivity|].
  exact (get_position_order_by_lanes argsort_stable argsort_stable_perm
           argsort_stable_sorted grid_3x4 false false).
Defined.

Lemma get_position_labels_form_witness :
  (forall ys, Permutation (argsort_stable ys) (seq 0 (length ys))) /\
  (forall ys, Sorted Qle (map (fun i => nth i ys 0%Q) (argsort_stable ys))) /\
  get_position_names_and_inds argsort_stable grid_3x4 false false
    = Some (grid_3x4_names, grid_3x4_perm) /\
  nth_error grid_3x4_names 2 = Some (Some "ch3-2"%string) /\
  let pos := signed_pos grid_3x4 false in
  let x_pos := map fst pos in
  exists min_x i j,
    list_min x_pos = Some min_x /\ i < 10 /\
    "ch3-2"%string = ("ch" ++ nat_str (S i) ++ "-" ++ nat_str (S j))%string /\
    let members := lane_members x_pos min_x (lane_pitch x_pos) i in
    In 2 members /\
    nth_error (lane_order argsort_stable pos members false) j = Some 2 /\
    Sorted (y_order false) (map (stage_y pos) (lane_order argsort_stable pos members false)).
Proof.
  split; [exact argsort_stable_perm|].
  split; [exact argsort_stable_sorted|].
  assert (H : get_position_names_and_inds argsort_stable grid_3x4 false false
                = Some (grid_3x4_names, grid_3x4_perm)) by (vm_compute; reflexivity).
  split; [exact H|].
  split; [reflexivity|].
  exact (get_position_labels_form argsort_stable argsort_stable_perm argsort_stable_sorted
           grid_3x4 false false grid_3x4_names grid_3x4_perm 2 "ch3-2"%string
           H eq_refl).
Defined.

(** C7 does not hold as worded: on the 3 x 4 grid the first position is
    labelled "ch2-4", which is no "lane{k}-{row}". *)
Lemma get_position_labels_not_lane :
  get_position_names_and_inds argsort_stable grid_3x4 false false
    = Some (grid_3x4_names, grid_3x4_perm) /\
  nth_error grid_3x4_names 0 = Some (Some "ch2-4"%string) /\
  forall a b : nat, "ch2-4"%string <> ("lane" ++ nat_str a ++ "-" ++ nat_str b)%string.
Proof.
  split; [vm_compute; reflexivity|].
  split; [reflexivity|].
  intros a b H. discriminate H.
Qed.

(** * Further properties of [_widget.py] *)

(** ** Loop sizes *)

(** [get_tstack_size] is the size of the first entry of type
    ["NETimeLoop"] or ["TimeLoop"]; with no such entry it is 0, so a
    file without a time loop and one with a time loop of size 0 read
    alike. *)
Theorem get_tstack_size_first (coord_info : list coord_entry) :
  (exists pre ci post,
     coord_info = pre ++ ci :: post /\
     Forall (fun c => ci_type c <> "NETimeLoop"%string /\ ci_type c <> "TimeLoop"%string) pre /\
     (ci_type ci = "NETimeLoop"%string \/ ci_type ci = "TimeLoop"%string) /\
     get_tstack_size coord_info = ci_size ci) \/
  (Forall (fun c => ci_type c <> "NETimeLoop"%string /\ ci_type c <> "TimeLoop"%string)
     coord_info /\
   get_tstack_size coord_info = 0).
Proof.
  induction coord_info as [|c rest IH]; simpl.
  - right. split; [constructor | reflexivity].
  - destruct (String.eqb_spec (ci_type c) "NETimeLoop") as [E1|E1];
    [|destruct (String.eqb_spec (ci_type c) "TimeLoop") as [E2|E2]]; simpl.
    + left. exists [], c, rest. split; [reflexivity|].
      split; [constructor|]. split; [left; exact E1 | reflexivity].
    + left. exists [], c, rest. split; [reflexivity|].
      split; [constructor|]. split; [right; exact E2 | reflexivity].
    + destruct IH as [(pre & ci & post & -> & Hpre & Hci & Hs)|[Hall Hs]].
      * left. exists (c :: pre), ci, post. split; [reflexivity|].
        split; [constructor; [split; assumption | exact Hpre]|].
        split; assumption.
      * right. split; [constructor; [split; assumption | exact Hall] | exact Hs].
Qed.

(** ** Stage positions *)

(** A file whose experiment has no [XYPosLoop] gives [get_stage_positions]
    the empty list, and [get_position_names_and_inds] then raises. *)
Theorem get_position_names_and_inds_no_xy_loop (argsort : list Q -> list nat)
    (exps : list experiment) (invert_x invert_y : bool) :
  Forall (fun e => exp_type e <> "XYPosLoop"%string) exps ->
  get_stage_positions exps = [] /\
  get_position_names_and_inds argsort (get_stage_positions exps) invert_x invert_y = None.
Proof.
  intros H.
  assert (E : get_stage_positions exps = []).
  { induction H as [|e rest He _ IH]; [reflexivity|]. simpl.
    destruct (String.eqb_spec (exp_type e) "XYPosLoop"); [contradiction | exact IH]. }
  split; [exact E|].
  rewrite E. destruct invert_x; reflexivity.
Qed.

Lemma get_position_names_and_inds_no_xy_loop_witness :
  Forall (fun e => exp_type e <> "XYPosLoop"%string)
    [mkExp "ZStackLoop" []; mkExp "NETimeLoop" []] /\
  get_stage_positions [mkExp "ZStackLoop" []; mkExp "NETimeLoop" []] = [] /\
  get_position_names_and_inds argsort_stable
    (get_stage_positions [mkExp "ZStackLoop" []; mkExp "NETimeLoop" []]) false false = None.
Proof.
  assert (H : Forall (fun e => exp_type e <> "XYPosLoop"%string)
                [mkExp "ZStackLoop" []; mkExp "NETimeLoop" []]).
  { repeat constructor; simpl; discriminate. }
  split; [exact H|].
  exact (get_position_names_and_inds_no_xy_loop argsort_stable _ false false H).
Defined.

(** ** The folder scan *)

Lemma fold_left_max_spec (r : list nat) (acc : nat) :
  acc <= fold_left Nat.max r acc /\
  (forall x, In x r -> x <= fold_left Nat.max r acc) /\
  (fold_left Nat.max r acc = acc \/ In (fold_left Nat.max r acc) r).
Proof.
  revert acc. induction r as [|x r IH]; intros acc; simpl.
  - split; [lia|]. split; [intros x []|]. left. reflexivity.
  - destruct (IH (Nat.max acc x)) as (H1 & H2 & H3).
    split; [lia|]. split.
    + intros y [<-|Hy]; [lia | apply H2; exact Hy].
    + destruct H3 as [H3|H3]; [|right; right; exact H3].
      rewrite H3. destruct (Nat.max_spec acc x) as [[_ ->]|[_ ->]].
      * right. left. reflexivity.
      * left. reflexivity.
Qed.

Lemma list_max_spec (l : list nat) (m : nat) :
  list_max l = Some m -> (forall x, In x l -> x <= m) /\ In m l.
Proof.
  destruct l as [|x r]; simpl; [discriminate|]. intros H. injection H as <-.
  destruct (fold_left_max_spec r x) as (H1 & H2 & H3). split.
  - intros y [<-|Hy]; [exact H1 | apply H2; exact Hy].
  - destruct H3 as [->|H3]; [left; reflexivity | right; exact H3].
Qed.

Lemma argmax_from_spec (r p : list nat) (best bestv : nat) :
  best < length p -> nth best p 0 = bestv ->
  (forall j, j < length p -> nth j p 0 <= bestv) ->
  (forall j, j < best -> nth j p 0 < bestv) ->
  let ind := argmax_from r (length p) best bestv in
  ind < length (p ++ r) /\
  (forall j, j < length (p ++ r) -> nth j (p ++ r) 0 <= nth ind (p ++ r) 0) /\
  (forall j, j < ind -> nth j (p ++ r) 0 < nth ind (p ++ r) 0).
Proof.
  revert p best bestv. induction r as [|x r IH]; intros p best bestv Hb Hv Hle Hlt ind.
  - subst ind. simpl. rewrite app_nil_r. split; [exact Hb|].
    rewrite Hv. split; assumption.
  - subst ind. simpl. replace (p ++ x :: r) with ((p ++ [x]) ++ r)
      by (rewrite <- app_assoc; reflexivity).
    assert (Hlen : length (p ++ [x]) = S (length p)) by (rewrite length_app; simpl; lia).
    destruct (bestv <? x) eqn:Ex.
    + apply Nat.ltb_lt in Ex. rewrite <- Hlen.
      apply IH.
      * lia.
      * rewrite app_nth2 by lia. rewrite Nat.sub_diag. reflexivity.
      * intros j Hj. rewrite Hlen in Hj. destruct (Nat.eq_dec j (length p)) as [->|Hne].
        -- rewrite app_nth2 by lia. rewrite Nat.sub_diag. simpl. lia.
        -- rewrite app_nth1 by lia. specialize (Hle j). lia.
      * intros j Hj. rewrite app_nth1 by lia. specialize (Hle j). lia.
    + apply Nat.ltb_ge in Ex. rewrite <- Hlen.
      apply IH.
      * lia.
      * rewrite app_nth1 by lia. exact Hv.
      * intros j Hj. rewrite Hlen in Hj. destruct (Nat.eq_dec j (length p)) as [->|Hne].
        -- rewrite app_nth2 by lia. rewrite Nat.sub_diag. simpl. lia.
        -- rewrite app_nth1 by lia. apply Hle. lia.
      * intros j Hj. rewrite app_nth1 by lia. apply Hlt. exact Hj.
Qed.

Lemma np_argmax_spec (l : list nat) (ind : nat) :
  np_argmax l = Some ind ->
  ind < length l /\
  (forall j, j < length l -> nth j l 0 <= nth ind l 0) /\
  (forall j, j < ind -> nth j l 0 < nth ind l 0).
Proof.
  destruct l as [|x r]; simpl; [discriminate|]. intros H. injection H as <-.
  apply (argmax_from_spec r [x] 0 x); simpl; [lia | reflexivity | |].
  - intros j Hj. destruct j; [lia | simpl; lia].
  - intros j Hj. lia.
Qed.

Lemma argmax_from_lt (r : list nat) (i best bestv : nat) :
  best < i -> argmax_from r i best bestv < i + length r.
Proof.
  revert i best bestv. induction r as [|x r IH]; intros i best bestv H; simpl.
  - lia.
  - destruct (bestv <? x); (eapply Nat.lt_le_trans; [apply IH; lia | lia]).
Qed.

Lemma open_nd2_files_None (open_file : string -> option nd2_info) (names : list string) :
  open_nd2_files open_file names = None <-> exists f, In f names /\ open_file f = None.
Proof.
  induction names as [|f r IH]; simpl.
  - split; [discriminate | intros (f & [] & _)].
  - destruct (open_file f) as [g|] eqn:Ef.
    + destruct (open_nd2_files open_file r) eqn:Er.
      * split; [discriminate|]. intros (f' & [->|Hin] & Hf').
        -- congruence.
        -- assert (Hn : Some l = None) by (apply IH; exists f'; split; assumption).
           discriminate Hn.
      * split; [|reflexivity]. intros _.
        destruct (proj1 IH eq_refl) as (f' & Hin & Hf'). exists f'. split; [right|]; assumption.
    + split; [|reflexivity]. intros _. exists f. split; [left; reflexivity | exact Ef].
Qed.

Lemma open_nd2_files_length (open_file : string -> option nd2_info)
    (names : list string) (files : list nd2_info) :
  open_nd2_files open_file names = Some files -> length files = length names.
Proof.
  revert files. induction names as [|f r IH]; intros files; simpl.
  - intros H. injection H as <-. reflexivity.
  - destruct (open_file f); [|discriminate].
    destruct (open_nd2_files open_file r) eqn:Er; [|discriminate].
    intros H. injection H as <-. simpl. rewrite (IH l eq_refl). reflexivity.
Qed.

Lemma In_nd2_names (listing : list string) (f : string) :
  In f (filter (fun f => endswith f ".nd2") (sorted_strings listing)) <->
  In f listing /\ endswith f ".nd2" = true.
Proof.
  rewrite filter_In. unfold sorted_strings. split; intros [H1 H2]; split; try exact H2.
  - apply (Permutation_in _ (Permutation_sym (StringSort.Permuted_sort listing))). exact H1.
  - apply (Permutation_in _ (StringSort.Permuted_sort listing)). exact H1.
Qed.

(** [get_nd2_files_in_folder] raises exactly when no entry of the folder
    ends in [".nd2"] (both [max] and [np.argmax] of an empty list raise),
    or when [nd2.ND2File] fails on one of the [.nd2] entries. *)
Theorem get_nd2_files_in_folder_fails_iff (open_file : string -> option nd2_info)
    (listing : list string) :
  get_nd2_files_in_folder open_file listing = None <->
  Forall (fun f => endswith f ".nd2" = false) listing \/
  (exists f, In f listing /\ endswith f ".nd2" = true /\ open_file f = None).
Proof.
  assert (Hn : filter (fun f => endswith f ".nd2") (sorted_strings listing) = [] <->
               Forall (fun f => endswith f ".nd2" = false) listing).
  { rewrite Forall_forall. split.
    - intros H f Hf. destruct (endswith f ".nd2") eqn:E; [|reflexivity].
      assert (Hin : In f (filter (fun f => endswith f ".nd2") (sorted_strings listing)))
        by (apply In_nd2_names; split; assumption).
      rewrite H in Hin. destruct Hin.
    - intros H. destruct (filter _ _) as [|f r] eqn:E; [reflexivity|].
      assert (Hin : In f (f :: r)) by (left; reflexivity).
      rewrite <- E in Hin. apply In_nd2_names in Hin as [Hin Hf].
      rewrite (H f Hin) in Hf. discriminate Hf. }
  assert (Ho : open_nd2_files open_file
                 (filter (fun f => endswith f ".nd2") (sorted_strings listing)) = None <->
               exists f, In f listing /\ endswith f ".nd2" = true /\ open_file f = None).
  { rewrite open_nd2_files_None. split.
    - intros (f & Hin & Hf). apply In_nd2_names in Hin as [H1 H2]. exists f. auto.
    - intros (f & H1 & H2 & Hf). exists f. split; [apply In_nd2_names; auto | exact Hf]. }
  unfold get_nd2_files_in_folder.
  destruct (open_nd2_files open_file _) as [files|] eqn:Eo.
  2: { split; [intros _; right; apply Ho; reflexivity | reflexivity]. }
  apply open_nd2_files_length in Eo.
  assert (Hno : ~ exists f, In f listing /\ endswith f ".nd2" = true /\ open_file f = None)
    by (intros Hx; apply Ho in Hx; discriminate Hx).
  rewrite <- Hn.
  destruct files as [|f0 r]; simpl.
  - destruct (filter _ _); [|discriminate]. split; [intros _; left; reflexivity | reflexivity].
  - split.
    + intros H. exfalso. revert H.
      match goal with |- context[argmax_from ?r' 1 0 ?x'] =>
        pose proof (argmax_from_lt r' 1 0 x' ltac:(lia)) as Hlt;
        destruct (argmax_from r' 1 0 x') as [|ind] end.
      * discriminate.
      * simpl. destruct (nth_error r ind) eqn:E; [discriminate|].
        apply nth_error_None in E. repeat rewrite length_map in *. lia.
    + intros [H|H]; [rewrite H in Eo; discriminate Eo | contradiction].
Qed.

Lemma nth_map_length_channels (files : list nd2_info) (j : nat) (g : nd2_info) :
  nth_error files j = Some g ->
  nth j (map (@length string) (map rdr_channel_names files)) 0 =
  length (rdr_channel_names g).
Proof.
  intros H. apply nth_error_nth. rewrite !nth_error_map, H. reflexivity.
Qed.

(** [zlen] is the largest z extent over the nd2 files of the folder
    (taken in sorted name order): no file has more planes, and some file
    has that many. *)
Theorem get_nd2_files_in_folder_zlen (open_file : string -> option nd2_info)
    (listing : list string) files xylen mlen zlen channel_names :
  get_nd2_files_in_folder open_file listing = Some (files, xylen, mlen, zlen, channel_names) ->
  open_nd2_files open_file
    (filter (fun f => endswith f ".nd2") (sorted_strings listing)) = Some files /\
  (forall f, In f files -> get_zstack_size (coord_info f) <= zlen) /\
  (exists f, In f files /\ get_zstack_size (coord_info f) = zlen).
Proof.
  unfold get_nd2_files_in_folder.
  destruct (open_nd2_files open_file _) as [fs|] eqn:Eo; [|discriminate].
  destruct (list_max _) as [z|] eqn:Ez; [|discriminate].
  destruct (np_argmax _) as [ind|]; [|discriminate].
  destruct (nth_error fs ind) as [f|]; [|discriminate].
  intros H. injection H as <- _ _ <- _.
  apply list_max_spec in Ez as [Hle Hin].
  split; [reflexivity|]. split.
  - intros f' Hf'. apply Hle. apply in_map_iff. exists f'. split; [reflexivity | exact Hf'].
  - apply in_map_iff in Hin as (f' & Hf' & Hin). exists f'. split; assumption.
Qed.

Lemma get_nd2_files_in_folder_zlen_witness :
  exists files xylen mlen channel_names,
    get_nd2_files_in_folder folder_open folder_listing
      = Some (files, xylen, mlen, 7, channel_names) /\
    open_nd2_files folder_open
      (filter (fun f => endswith f ".nd2") (sorted_strings folder_listing)) = Some files /\
    (forall f, In f files -> get_zstack_size (coord_info f) <= 7) /\
    (exists f, In f files /\ get_zstack_size (coord_info f) = 7).
Proof.
  do 4 eexists.
  assert (H : get_nd2_files_in_folder folder_open folder_listing
                = Some (map folder_file ["a.nd2"; "b.nd2"; "c.nd2"]%string, 512, 12, 7,
                        ["GFP"; "mRuby"]%string)) by (vm_compute; reflexivity).
  split; [exact H|].
  exact (get_nd2_files_in_folder_zlen folder_open folder_listing _ _ _ _ _ H).
Defined.

(** The file [channel_names], [xylen] and [mlen] are read from is the
    first file, in sorted name order, among those with the most channels:
    no file has more channels and every file before it has fewer. *)
Theorem get_nd2_files_in_folder_reference (open_file : string -> option nd2_info)
    (listing : list string) files xylen mlen zlen channel_names :
  get_nd2_files_in_folder open_file listing = Some (files, xylen, mlen, zlen, channel_names) ->
  exists ind f,
    nth_error files ind = Some f /\
    channel_names = rdr_channel_names f /\
    xylen = last_extent f /\ mlen = get_xy_size (coord_info f) /\
    (forall g, In g files -> length (rdr_channel_names g) <= length channel_names) /\
    (forall j g, j < ind -> nth_error files j = Some g ->
       length (rdr_channel_names g) < length channel_names).
Proof.
  unfold get_nd2_files_in_folder.
  destruct (open_nd2_files open_file _) as [fs|]; [|discriminate].
  destruct (list_max _) as [z|]; [|discriminate].
  destruct (np_argmax _) as [ind|] eqn:Ei; [|discriminate].
  destruct (nth_error fs ind) as [f|] eqn:Ef; [|discriminate].
  intros H. injection H as <- <- <- _ <-.
  apply np_argmax_spec in Ei as (_ & Hle & Hlt).
  assert (Hc : nth ind (map rdr_channel_names fs) [] = rdr_channel_names f).
  { apply nth_error_nth. rewrite nth_error_map, Ef. reflexivity. }
  rewrite (nth_map_length_channels fs ind f Ef) in Hle, Hlt.
  exists ind, f. rewrite Hc.
  split; [exact Ef|]. split; [reflexivity|]. split; [reflexivity|]. split; [reflexivity|].
  split.
  - intros g Hg. apply In_nth_error in Hg as [j Hj].
    rewrite <- (nth_map_length_channels fs j g Hj). apply Hle.
    rewrite !length_map. apply nth_error_Some. rewrite Hj. discriminate.
  - intros j g Hj Hg. rewrite <- (nth_map_length_channels fs j g Hg). apply Hlt. exact Hj.
Qed.

Lemma get_nd2_files_in_folder_reference_witness :
  exists ind f,
    get_nd2_files_in_folder folder_open folder_listing
      = Some (map folder_file ["a.nd2"; "b.nd2"; "c.nd2"]%string, 512, 12, 7,
              ["GFP"; "mRuby"]%string) /\
    nth_error (map folder_file ["a.nd2"; "b.nd2"; "c.nd2"]%string) ind = Some f /\
    ["GFP"; "mRuby"]%string = rdr_channel_names f /\
    512 = last_extent f /\ 12 = get_xy_size (coord_info f) /\
    (forall g, In g (map folder_file ["a.nd2"; "b.nd2"; "c.nd2"]%string) ->
       length (rdr_channel_names g) <= length ["GFP"; "mRuby"]%string) /\
    (forall j g, j < ind ->
       nth_error (map folder_file ["a.nd2"; "b.nd2"; "c.nd2"]%string) j = Some g ->
       length (rdr_channel_names g) < length ["GFP"; "mRuby"]%string).
Proof.
  assert (H : get_nd2_files_in_folder folder_open folder_listing
                = Some (map folder_file ["a.nd2"; "b.nd2"; "c.nd2"]%string, 512, 12, 7,
                        ["GFP"; "mRuby"]%string)) by (vm_compute; reflexivity).
  destruct (get_nd2_files_in_folder_reference folder_open folder_listing _ _ _ _ _ H)
    as (ind & f & Hrest).
  exists ind, f. split; [exact H | exact Hrest].
Defined.

(** ** Layer colours and opacities *)

Lemma prefix_app (sub s b : string) :
  String.prefix sub s = true -> String.prefix sub (s ++ b) = true.
Proof.
  revert sub. induction s as [|c' s IH]; intros sub H.
  - destruct sub; [destruct b; reflexivity | discriminate H].
  - destruct sub as [|c sub]; [destruct b; reflexivity|]. simpl in *.
    destruct (ascii_dec c c'); [apply IH; exact H | discriminate H].
Qed.

Lemma contains_app_r (sub s b : string) :
  contains sub s = true -> contains sub (s ++ b) = true.
Proof.
  induction s as [|c s IH]; intros H; simpl in *.
  - destruct sub; [destruct b; reflexivity | discriminate H].
  - apply orb_true_iff in H as [H|H].
    + apply orb_true_iff. left. apply (prefix_app sub (String c s) b). exact H.
    + apply orb_true_iff. right. apply IH. exact H.
Qed.

Lemma contains_app_l (sub a s : string) :
  contains sub s = true -> contains sub (a ++ s) = true.
Proof.
  induction a as [|c a IH]; intros H; simpl; [exact H|].
  apply orb_true_iff. right. apply IH. exact H.
Qed.

(** [color_from_name] tests substrings, and the green test comes first:
    a name that is coloured green stays green whatever text is put around
    it (a ["GFP-mRuby"] channel is green, not red). *)
Theorem color_from_name_green_extends (a name b : string) :
  color_from_name name = "green"%string ->
  color_from_name (a ++ name ++ b) = "green"%string.
Proof.
  unfold color_from_name. intros H.
  destruct (contains "GFP" name || contains "epi" name) eqn:E.
  - apply orb_true_iff in E as [E|E];
      apply (contains_app_r _ _ b), (contains_app_l _ a) in E; rewrite E;
      [reflexivity | rewrite orb_true_r; reflexivity].
  - destruct (contains "mRuby" name); [discriminate H|].
    destruct (contains "brightfield" name || contains "Brightfield" name); discriminate H.
Qed.

Lemma color_from_name_green_extends_witness :
  color_from_name "GFP"%string = "green"%string /\
  color_from_name ("mRuby-" ++ "GFP" ++ " (Brightfield)")%string = "green"%string.
Proof.
  assert (H : color_from_name "GFP"%string = "green"%string) by reflexivity.
  split; [exact H|].
  exact (color_from_name_green_extends "mRuby-" "GFP" " (Brightfield)" H).
Defined.

(** [self.opacities] has an entry for every channel layer, 1 for the first
    and 0.6 for the others; with no channel it still holds one entry. *)
Theorem opacities_per_channel (n : nat) :
  length (opacities n) = Nat.max 1 n /\
  (forall i, i < n -> nth_error (opacities n) i = Some (if i =? 0 then 1 else 6 # 10)%Q).
Proof.
  assert (Hr : forall m, py_list_repeat (6 # 10)%Q (Z.of_nat (S m) - 1) = repeat (6 # 10)%Q m).
  { intros m. unfold py_list_repeat.
    replace (Z.of_nat (S m) - 1)%Z with (Z.of_nat m) by lia.
    destruct m as [|m]; [reflexivity|].
    replace (Z.of_nat (S m) <=? 0)%Z with false by (symmetry; apply Z.leb_gt; lia).
    rewrite Nat2Z.id. reflexivity. }
  unfold opacities. destruct n as [|n].
  - split; [reflexivity | intros i Hi; lia].
  - rewrite Hr. split.
    + simpl. rewrite repeat_length. lia.
    + intros [|i] Hi; [reflexivity|]. simpl.
      apply nth_error_repeat. lia.
Qed.

Lemma opacities_per_channel_witness :
  length (opacities 3) = Nat.max 1 3 /\
  (forall i, i < 3 -> nth_error (opacities 3) i = Some (if i =? 0 then 1 else 6 # 10)%Q).
Proof. exact (opacities_per_channel 3). Defined.

(** ** The channel key of a position label *)

Lemma string_append_nil_r (s : string) : (s ++ "")%string = s.
Proof. induction s as [|c s IH]; simpl; [reflexivity | rewrite IH; reflexivity]. Qed.

Lemma str_split_not_nil (sep : ascii) (s : string) : str_split sep s <> [].
Proof.
  destruct s as [|c s]; simpl; [discriminate|].
  destruct (Ascii.eqb c sep); [discriminate|]. destruct (str_split sep s); discriminate.
Qed.

Lemma str_split_app_nodash (s t : string) :
  Forall (fun c => c <> "-"%char) (list_ascii_of_string s) ->
  str_split "-" (s ++ t) =
  match str_split "-" t with
  | h :: r => (s ++ h)%string :: r
  | [] => [s]
  end.
Proof.
  induction s as [|c s IH]; intros H; simpl.
  - destruct (str_split "-" t) eqn:E; [exfalso; exact (str_split_not_nil _ _ E) | reflexivity].
  - apply Forall_cons_iff in H as [Hc H].
    destruct (Ascii.eqb_spec c "-"); [contradiction|].
    rewrite (IH H). destruct (str_split "-" t); reflexivity.
Qed.

Lemma string_of_uint_nodash (d : Decimal.uint) :
  Forall (fun c => c <> "-"%char) (list_ascii_of_string (NilEmpty.string_of_uint d)).
Proof.
  induction d; simpl; repeat constructor; try discriminate; assumption.
Qed.

Lemma nat_str_nodash (n : nat) :
  Forall (fun c => c <> "-"%char) (list_ascii_of_string (nat_str n)).
Proof.
  unfold nat_str, NilZero.string_of_uint.
  destruct (Nat.to_uint n); try apply string_of_uint_nodash.
  repeat constructor. discriminate.
Qed.

(** [write_info] looks a position up in [exp_info.channel_infos] under
    [pos_name.split("-")[0]]: a label ["ch{i+1}-{j}"] splits into exactly
    the two parts ["ch{i+1}"] and ["{j}"], so the key is the label's lane
    part. *)
Theorem position_label_split (i j : nat) :
  str_split "-" (position_label i j) = [("ch" ++ nat_str (S i))%string; nat_str j] /\
  channel_key (position_label i j) = ("ch" ++ nat_str (S i))%string.
Proof.
  assert (Hj : str_split "-" (nat_str j) = [nat_str j]).
  { rewrite <- (string_append_nil_r (nat_str j)) at 1.
    rewrite (str_split_app_nodash _ _ (nat_str_nodash j)). simpl.
    rewrite string_append_nil_r. reflexivity. }
  assert (H : str_split "-" (position_label i j) = [("ch" ++ nat_str (S i))%string; nat_str j]).
  { unfold position_label.
    rewrite (str_split_app_nodash "ch" _) by (repeat constructor; discriminate).
    rewrite (str_split_app_nodash (nat_str (S i)) _ (nat_str_nodash (S i))).
    simpl. rewrite Hj. rewrite string_append_nil_r. reflexivity. }
  split; [exact H|]. unfold channel_key. rewrite H. reflexivity.
Qed.

(** ** The timestamp tensor of [nd2_file_to_dask] *)

Lemma timestamps_upto_none_after coords ftime tlen_ zlen_ mlen zlen (i n : nat) :
  timestamps_upto coords ftime tlen_ zlen_ mlen zlen i = None -> i <= n ->
  timestamps_upto coords ftime tlen_ zlen_ mlen zlen n = None.
Proof.
  intros H Hle. induction Hle as [|n Hle IH]; [exact H|].
  simpl. rewrite IH. reflexivity.
Qed.

(** The position count [mlen] of the tensor is the one of the folder's
    reference file; a frame whose position index is [mlen] or more makes
    the whole loop raise, whatever the other frames are. *)
Theorem nd2_timestamps_position_out_of_range coords ftime tlen_ zlen_ mlen zlen
    (n i : nat) (ot : option nat) (k : nat) (oz : option nat) :
  i < n -> present_coords tlen_ zlen_ (coords i) = Some (ot, k, oz) -> mlen <= k ->
  nd2_timestamps coords ftime tlen_ zlen_ mlen zlen n = None.
Proof.
  intros Hi Hpc Hk. unfold nd2_timestamps.
  apply (timestamps_upto_none_after _ _ _ _ _ _ (S i)); [|exact Hi].
  simpl. destruct (timestamps_upto _ _ _ _ _ _ i) as [T|]; [|reflexivity].
  unfold write_frame, present_coords in *.
  apply Nat.ltb_ge in Hk.
  destruct (tlen_ =? 0), (zlen_ =? 0); simpl;
  destruct (coords i) as [|x1 [|x2 [|x3 [|x4 r]]]]; try discriminate;
  injection Hpc as <- <- <-; simpl; rewrite ?Hk, ?andb_false_r; reflexivity.
Qed.

Lemma nd2_timestamps_position_out_of_range_witness :
  2 < 3 /\ present_coords 1 0 [0; 2] = Some (Some 0, 2, None) /\ 2 <= 2 /\
  nd2_timestamps (fun i => [0; i]) (fun _ => 0%Q) 1 0 2 3 3 = None.
Proof.
  split; [lia|]. split; [reflexivity|]. split; [lia|].
  exact (nd2_timestamps_position_out_of_range (fun i => [0; i]) (fun _ => 0%Q)
           1 0 2 3 3 2 (Some 0) 2 None ltac:(lia) eq_refl ltac:(lia)).
Defined.

Lemma write_frame_cell (tlen_ zlen_ tl ml zl : nat) coords v T T' a b c :
  rect3 tl ml zl T -> write_frame tlen_ zlen_ tl ml zl coords v T = Some T' ->
  a < tl -> b < ml -> c < zl ->
  cell T' a b c = v \/ cell T' a b c = cell T a b c.
Proof.
  intros HT H Ha Hb Hc. unfold write_frame in H.
  repeat match goal with
         | H : context[if ?b then _ else _] |- _ => destruct b
         | H : context[match ?l with _ => _ end] |- _ => destruct l
         end;
  try discriminate;
  injection H as <-; rewrite (cell_set_cells _ _ _ _ _ _ _ _ _ _ _ HT Ha Hb Hc);
  match goal with |- context[if ?b then _ else _] => destruct b end; auto.
Qed.

Lemma nth_repeat_or {A} (x d : A) (m k : nat) :
  nth k (repeat x m) d = x \/ nth k (repeat x m) d = d.
Proof.
  revert k. induction m as [|m IH]; intros k; simpl.
  - destruct k; right; reflexivity.
  - destruct k; [left; reflexivity | apply IH].
Qed.

Lemma cell_np_zeros3 (tl ml zl a b c : nat) : cell (np_zeros3 tl ml zl) a b c = 0%Q.
Proof.
  unfold cell, np_zeros3.
  destruct (nth_repeat_or (repeat (repeat 0%Q zl) ml) [] tl a) as [-> | ->];
    [|destruct b, c; reflexivity].
  destruct (nth_repeat_or (repeat 0%Q zl) [] ml b) as [-> | ->];
    [|destruct c; reflexivity].
  destruct (nth_repeat_or 0%Q 0%Q zl c) as [-> | ->]; reflexivity.
Qed.

(** Every cell of the timestamp tensor holds 0 (Julian day 0: no frame
    addressed it) or the time of one of the file's frames. *)
Theorem nd2_timestamps_cells coords ftime tlen_ zlen_ mlen zlen (n : nat) T a b c :
  nd2_timestamps coords ftime tlen_ zlen_ mlen zlen n = Some T ->
  a < tlen tlen_ -> b < mlen -> c < zlen ->
  cell T a b c = 0%Q \/ exists i, i < n /\ cell T a b c = ftime i.
Proof.
  unfold nd2_timestamps. intros H Ha Hb Hc. revert T H.
  induction n as [|i IH]; intros T H; simpl in H.
  - injection H as <-. left. apply cell_np_zeros3.
  - destruct (timestamps_upto _ _ _ _ _ _ i) as [T0|] eqn:E; [|discriminate].
    pose proof (timestamps_upto_rect _ _ _ _ _ _ _ _ E) as HT0.
    destruct (write_frame_cell _ _ _ _ _ _ _ _ _ a b c HT0 H Ha Hb Hc) as [Hv|Hv].
    + right. exists i. split; [lia | exact Hv].
    + rewrite Hv. destruct (IH T0 eq_refl) as [H0|(j & Hj & H0)].
      * left. exact H0.
      * right. exists j. split; [lia | exact H0].
Qed.

Lemma nd2_timestamps_cells_witness :
  exists T,
    nd2_timestamps (fun i => [0; i]) (fun i => inject_Z (Z.of_nat i + 7)) 1 0 3 4 2 = Some T /\
    0 < tlen 1 /\ 2 < 3 /\ 1 < 4 /\
    (cell T 0 2 1 = 0%Q \/ exists i, i < 2 /\ cell T 0 2 1 = inject_Z (Z.of_nat i + 7)).
Proof.
  set (T := match nd2_timestamps (fun i => [0; i]) (fun i => inject_Z (Z.of_nat i + 7))
                    1 0 3 4 2 with Some T => T | None => [] end).
  assert (H : nd2_timestamps (fun i => [0; i]) (fun i => inject_Z (Z.of_nat i + 7))
                1 0 3 4 2 = Some T) by (vm_compute; reflexivity).
  assert (Ht : 0 < tlen 1) by (vm_compute; lia).
  exists T. split; [exact H|]. split; [exact Ht|]. split; [lia|]. split; [lia|].
  exact (nd2_timestamps_cells (fun i => [0; i]) (fun i => inject_Z (Z.of_nat i + 7))
           1 0 3 4 2 T 0 2 1 H Ht ltac:(lia) ltac:(lia)).
Defined.

(** ** The lanes of [get_position_names_and_inds] *)

Lemma Qlt_bool_iff (a b : Q) : Qlt_bool a b = true <-> (a < b)%Q.
Proof.
  unfold Qlt_bool. rewrite negb_true_iff. split.
  - intros H. apply Qnot_le_lt. intros H'. apply Qle_bool_iff in H'. congruence.
  - intros H. destruct (Qle_bool b a) eqn:E; [|reflexivity].
    apply Qle_bool_iff in E. exfalso. apply (Qlt_not_le a b H E).
Qed.

Lemma lane_members_spec (x_pos : list Q) (min_x mean_diff : Q) (i k : nat) :
  In k (lane_members x_pos min_x mean_diff i) <->
  k < length x_pos /\
  (min_x + inject_Z (Z.of_nat i) * mean_diff - mean_diff / 3 < nth k x_pos 0 /\
   nth k x_pos 0 < min_x + inject_Z (Z.of_nat i) * mean_diff + mean_diff / 3)%Q.
Proof.
  unfold lane_members. rewrite filter_In, in_seq, andb_true_iff, !Qlt_bool_iff.
  split; intros [H1 H2]; split; (lia || exact H2).
Qed.

Lemma lane_members_NoDup (x_pos : list Q) (min_x mean_diff : Q) (i : nat) :
  NoDup (lane_members x_pos min_x mean_diff i).
Proof. apply NoDup_filter, seq_NoDup. Qed.

Lemma Qmean_nonneg (l : list Q) : Forall (Qle 0) l -> (0 <= Qmean l)%Q.
Proof.
  intros H. unfold Qmean.
  assert (Hs : (0 <= fold_right Qplus 0 l)%Q).
  { induction H as [|x l Hx _ IH]; simpl; [apply Qle_refl | lra]. }
  destruct l as [|x l]; [vm_compute; discriminate|].
  apply Qle_shift_div_l.
  - simpl length. rewrite <- (Qmult_lt_r 0 _ 1) by lra.
    unfold Qlt. simpl. lia.
  - rewrite Qmult_0_l. exact Hs.
Qed.

Lemma lane_pitch_nonneg (x_pos : list Q) : (0 <= lane_pitch x_pos)%Q.
Proof.
  unfold lane_pitch. apply Qmean_nonneg, Forall_forall.
  intros d Hd. apply filter_In in Hd as [Hd _].
  unfold pairwise_distances_1d in Hd. apply in_flat_map in Hd as (xi & _ & Hd).
  apply in_map_iff in Hd as (xj & <- & _). apply Qabs_nonneg.
Qed.

Lemma lane_bands_disjoint (x_pos : list Q) (min_x d : Q) (i i' k : nat) :
  (0 <= d)%Q -> i <> i' ->
  In k (lane_members x_pos min_x d i) -> ~ In k (lane_members x_pos min_x d i').
Proof.
  intros Hd Hne H H'.
  apply lane_members_spec in H as [_ [H1 H2]].
  apply lane_members_spec in H' as [_ [H1' H2']].
  set (x := nth k x_pos 0%Q) in *.
  assert (Hgap : forall a b : nat, a < b ->
            (d <= inject_Z (Z.of_nat b) * d - inject_Z (Z.of_nat a) * d)%Q).
  { intros a b Hab.
    assert (Hq : (1 <= inject_Z (Z.of_nat b) - inject_Z (Z.of_nat a))%Q).
    { assert (Hz : (inject_Z (Z.of_nat a) + inject_Z 1 <= inject_Z (Z.of_nat b))%Q)
        by (rewrite <- inject_Z_plus, <- Zle_Qle; lia).
      change (inject_Z 1) with 1%Q in Hz. lra. }
    setoid_replace (inject_Z (Z.of_nat b) * d - inject_Z (Z.of_nat a) * d)%Q
      with ((inject_Z (Z.of_nat b) - inject_Z (Z.of_nat a)) * d)%Q by ring.
    setoid_replace d with (1 * d)%Q at 1 by ring.
    apply Qmult_le_compat_r; assumption. }
  unfold Qdiv in *. change (/ 3)%Q with (1 # 3)%Q in *.
  destruct (Nat.lt_total i i') as [Hlt|[Heq|Hlt]]; [| contradiction |].
  - specialize (Hgap i i' Hlt).
    generalize dependent (inject_Z (Z.of_nat i) * d)%Q.
    generalize dependent (inject_Z (Z.of_nat i') * d)%Q. intros. lra.
  - specialize (Hgap i' i Hlt).
    generalize dependent (inject_Z (Z.of_nat i) * d)%Q.
    generalize dependent (inject_Z (Z.of_nat i') * d)%Q. intros. lra.
Qed.

Lemma length_set_nth {A} (n : nat) (x : A) (l : list A) : length (set_nth n x l) = length l.
Proof.
  revert n. induction l as [|h t IH]; intros n; [destruct n; reflexivity|].
  destruct n; simpl; [reflexivity | rewrite IH; reflexivity].
Qed.

Lemma nth_error_set_nth_same {A} (n : nat) (x : A) (l : list A) :
  n < length l -> nth_error (set_nth n x l) n = Some x.
Proof.
  revert n. induction l as [|h t IH]; intros n H; simpl in H; [lia|].
  destruct n; simpl; [reflexivity | apply IH; lia].
Qed.

Lemma nth_error_set_nth_other {A} (n k : nat) (x : A) (l : list A) :
  k <> n -> nth_error (set_nth n x l) k = nth_error l k.
Proof.
  revert n k. induction l as [|h t IH]; intros n k H; [destruct n; reflexivity|].
  destruct n, k; simpl; try reflexivity; [lia|]. apply IH. lia.
Qed.

Lemma np_setitem_length {A} (a : list A) (idx : list nat) (vals : list A) :
  length (np_setitem a idx vals) = length a.
Proof.
  unfold np_setitem. revert a vals.
  induction idx as [|n idx IH]; intros a vals; [reflexivity|].
  destruct vals as [|x vals]; [reflexivity|]. simpl.
  rewrite IH. apply length_set_nth.
Qed.

Lemma np_setitem_notin {A} (a : list A) (idx : list nat) (vals : list A) (k : nat) :
  ~ In k idx -> nth_error (np_setitem a idx vals) k = nth_error a k.
Proof.
  unfold np_setitem. revert a vals.
  induction idx as [|n idx IH]; intros a vals H; [reflexivity|].
  destruct vals as [|x vals]; [reflexivity|]. simpl.
  rewrite IH by (intros H'; apply H; right; exact H').
  apply nth_error_set_nth_other. intros ->. apply H. left. reflexivity.
Qed.

Lemma np_setitem_at {A} (a : list A) (idx : list nat) (vals : list A) (t k : nat) (v : A) :
  NoDup idx -> nth_error idx t = Some k -> nth_error vals t = Some v -> k < length a ->
  nth_error (np_setitem a idx vals) k = Some v.
Proof.
  revert a vals t. induction idx as [|n idx IH]; intros a vals t Hnd Ht Hv Hk.
  - destruct t; discriminate Ht.
  - destruct vals as [|x vals]; [destruct t; discriminate Hv|].
    apply NoDup_cons_iff in Hnd as [Hn Hnd].
    change (nth_error (np_setitem (set_nth n x a) idx vals) k = Some v).
    destruct t as [|t]; simpl in Ht, Hv.
    + injection Ht as <-. injection Hv as <-.
      rewrite np_setitem_notin by exact Hn. apply nth_error_set_nth_same. exact Hk.
    + apply (IH _ _ t Hnd Ht Hv). rewrite length_set_nth. exact Hk.
Qed.

Lemma lane_step_length argsort pos x_pos min_x mean_diff invert_y acc i :
  length (lane_step argsort pos x_pos min_x mean_diff invert_y acc i) = length acc.
Proof. apply np_setitem_length. Qed.

Lemma lane_steps_length argsort pos x_pos min_x mean_diff invert_y (l : list nat) acc :
  length (fold_left (lane_step argsort pos x_pos min_x mean_diff invert_y) l acc) = length acc.
Proof.
  revert acc. induction l as [|i l IH]; intros acc; simpl; [reflexivity|].
  rewrite IH. apply lane_step_length.
Qed.

Lemma lane_steps_notin argsort pos x_pos min_x mean_diff invert_y (l : list nat) acc k :
  (forall i, In i l -> ~ In k (lane_members x_pos min_x mean_diff i)) ->
  nth_error (fold_left (lane_step argsort pos x_pos min_x mean_diff invert_y) l acc) k =
  nth_error acc k.
Proof.
  revert acc. induction l as [|i l IH]; intros acc H; simpl; [reflexivity|].
  rewrite IH by (intros i' Hi'; apply H; right; exact Hi').
  apply np_setitem_notin. apply H. left. reflexivity.
Qed.

Lemma np_take_app {A} (a : list A) (l1 l2 : list nat) xs ys :
  np_take a l1 = Some xs -> np_take a l2 = Some ys -> np_take a (l1 ++ l2) = Some (xs ++ ys).
Proof.
  revert xs. induction l1 as [|k l1 IH]; intros xs H1 H2; simpl in *.
  - injection H1 as <-. exact H2.
  - destruct (nth_error a k) as [x|]; [|discriminate].
    destruct (np_take a l1) as [xs'|]; [|discriminate].
    injection H1 as <-. rewrite (IH xs' eq_refl H2). reflexivity.
Qed.

Lemma np_take_indexed {A} (a : list A) (L : list nat) (f : nat -> A) :
  (forall t k, nth_error L t = Some k -> nth_error a k = Some (f t)) ->
  np_take a L = Some (map f (seq 0 (length L))).
Proof.
  revert f. induction L as [|k L IH]; intros f H; [reflexivity|].
  simpl. rewrite (H 0 k eq_refl).
  rewrite (IH (fun t => f (S t))) by (intros t k' Ht; apply (H (S t)); exact Ht).
  rewrite <- seq_shift, map_map. reflexivity.
Qed.

Lemma in_concat_map_seq {A} (F : nat -> list A) (n : nat) (x : A) :
  In x (concat (map F (seq 0 n))) <-> exists i, i < n /\ In x (F i).
Proof.
  rewrite in_concat. split.
  - intros (l & Hl & Hx). apply in_map_iff in Hl as (i & <- & Hi).
    apply in_seq in Hi. exists i. split; [lia | exact Hx].
  - intros (i & Hi & Hx). exists (F i). split; [|exact Hx].
    apply in_map. apply in_seq. lia.
Qed.

Lemma NoDup_concat_map {A} (F : nat -> list A) (l : list nat) :
  NoDup l -> (forall i, In i l -> NoDup (F i)) ->
  (forall i i' x, In i l -> In i' l -> i <> i' -> In x (F i) -> ~ In x (F i')) ->
  NoDup (concat (map F l)).
Proof.
  induction l as [|i l IH]; intros Hl HF Hd; simpl; [constructor|].
  apply NoDup_cons_iff in Hl as [Hi Hl].
  apply NoDup_app.
  - apply HF. left. reflexivity.
  - apply IH; [exact Hl | intros i' Hi'; apply HF; right; exact Hi' |].
    intros a b x Ha Hb. apply Hd; right; assumption.
  - intros x Hx Hx'. apply in_concat in Hx' as (l' & Hl' & Hx').
    apply in_map_iff in Hl' as (i' & <- & Hi').
    apply (Hd i i' x (or_introl eq_refl) (or_intror Hi')); [|exact Hx | exact Hx'].
    intros ->. contradiction.
Qed.

Section GridLabels.

Variable argsort : list Q -> list nat.
Hypothesis argsort_perm : forall ys, Permutation (argsort ys) (seq 0 (length ys)).
Hypothesis argsort_sorted :
  forall ys, Sorted Qle (map (fun i => nth i ys 0%Q) (argsort ys)).

Lemma lane_order_length pos members invert_y :
  length (lane_order argsort pos members invert_y) = length members.
Proof. apply Permutation_length, lane_order_perm, argsort_perm. Qed.

Lemma lane_step_at pos x_pos min_x mean_diff invert_y acc i t k :
  length acc = length x_pos ->
  nth_error (lane_order argsort pos (lane_members x_pos min_x mean_diff i) invert_y) t = Some k ->
  nth_error (lane_step argsort pos x_pos min_x mean_diff invert_y acc i) k =
  Some (Some (position_label i (S t))).
Proof.
  intros Hlen Ht. unfold lane_step.
  set (members := lane_members x_pos min_x mean_diff i) in *.
  set (sinds := lane_sort_inds argsort pos members invert_y).
  pose proof (lane_sort_inds_perm argsort argsort_perm pos members invert_y) as Hp.
  fold sinds in Hp.
  unfold lane_order in Ht. fold sinds in Ht. rewrite nth_error_map in Ht.
  destruct (nth_error sinds t) as [t'|] eqn:Et; [|discriminate Ht].
  injection Ht as Hk.
  assert (Hsl : length sinds = length members)
    by (rewrite (Permutation_length Hp), length_seq; reflexivity).
  assert (Ht' : t' < length members).
  { assert (Hin : In t' (seq 0 (length members)))
      by (apply (Permutation_in _ Hp); apply nth_error_In with t; exact Et).
    apply in_seq in Hin. lia. }
  assert (Htl : t < length members).
  { rewrite <- Hsl. apply nth_error_Some. rewrite Et. discriminate. }
  assert (Hm : nth_error members t' = Some k).
  { rewrite <- Hk. apply nth_error_nth'. exact Ht'. }
  apply (np_setitem_at _ members _ t' k).
  - apply lane_members_NoDup.
  - exact Hm.
  - unfold lane_labels. fold sinds.
    apply (np_setitem_at _ sinds _ t t').
    + apply (Permutation_NoDup (Permutation_sym Hp)), seq_NoDup.
    + exact Et.
    + rewrite nth_error_map.
      rewrite (nth_error_nth' (seq 1 (length sinds)) 0) by (rewrite length_seq; lia).
      rewrite seq_nth by lia. reflexivity.
    + rewrite repeat_length. lia.
  - rewrite Hlen. apply nth_error_In in Hm. apply lane_members_spec in Hm. apply Hm.
Qed.

Lemma lane_member_label (pos0 : list (Q * Q)) (invert_x invert_y : bool)
    names perm (min_x : Q) (i t k : nat) :
  get_position_names_and_inds argsort pos0 invert_x invert_y = Some (names, perm) ->
  let pos := signed_pos pos0 invert_x in
  let x_pos := map fst pos in
  list_min x_pos = Some min_x -> i < 10 ->
  nth_error (lane_order argsort pos (lane_members x_pos min_x (lane_pitch x_pos) i) invert_y) t
    = Some k ->
  nth_error names k = Some (Some (position_label i (S t))).
Proof.
  intros H pos x_pos Hmin Hi Ht.
  unfold get_position_names_and_inds in H. fold pos x_pos in H. rewrite Hmin in H.
  remember (fold_left _ (seq 0 10) _) as F eqn:HF in H.
  injection H as <- _. rewrite HF.
  assert (Hk : In k (lane_members x_pos min_x (lane_pitch x_pos) i)).
  { apply (Permutation_in _ (lane_order_perm argsort argsort_perm pos _ invert_y)).
    apply nth_error_In with t. exact Ht. }
  replace (seq 0 10) with (seq 0 i ++ i :: seq (S i) (9 - i))
    by (replace 10 with (i + S (9 - i)) by lia; rewrite seq_app; reflexivity).
  rewrite fold_left_app. simpl.
  rewrite lane_steps_notin.
  - apply lane_step_at; [|exact Ht].
    rewrite lane_steps_length, repeat_length. unfold x_pos. rewrite length_map. reflexivity.
  - intros i' Hi'. apply in_seq in Hi'.
    apply (lane_bands_disjoint _ _ _ i); [apply lane_pitch_nonneg | lia | exact Hk].
Qed.

(** A position of lane [i] (of 0 .. 9) that is the [t]-th (from 0) of the
    lane in its y order gets the label ["ch{i+1}-{t+1}"]: the label of its
    own lane, since no later lane can overwrite it (the lane bands do not
    overlap). *)
Theorem get_position_label_of_lane_member (pos0 : list (Q * Q)) (invert_x invert_y : bool)
    names perm (min_x : Q) (i t k : nat) :
  get_position_names_and_inds argsort pos0 invert_x invert_y = Some (names, perm) ->
  let pos := signed_pos pos0 invert_x in
  let x_pos := map fst pos in
  list_min x_pos = Some min_x -> i < 10 ->
  nth_error (lane_order argsort pos (lane_members x_pos min_x (lane_pitch x_pos) i) invert_y) t
    = Some k ->
  nth_error names k = Some (Some (position_label i (S t))).
Proof. apply lane_member_label. Qed.

(** A position in none of the 10 lanes keeps the [None] of
    [np.empty(..., dtype=object)]: it gets no label. *)
Theorem get_position_unlabelled (pos0 : list (Q * Q)) (invert_x invert_y : bool)
    names perm (min_x : Q) (k : nat) :
  get_position_names_and_inds argsort pos0 invert_x invert_y = Some (names, perm) ->
  let pos := signed_pos pos0 invert_x in
  let x_pos := map fst pos in
  list_min x_pos = Some min_x -> k < length pos0 ->
  (forall i, i < 10 -> ~ In k (lane_members x_pos min_x (lane_pitch x_pos) i)) ->
  nth_error names k = Some None.
Proof.
  intros H pos x_pos Hmin Hk Hno.
  unfold get_position_names_and_inds in H. fold pos x_pos in H. rewrite Hmin in H.
  remember (fold_left _ (seq 0 10) _) as F eqn:HF in H.
  injection H as <- _. rewrite HF.
  rewrite lane_steps_notin by (intros i Hi; apply in_seq in Hi; apply Hno; lia).
  apply nth_error_repeat. unfold pos. destruct invert_x; simpl; rewrite ?length_map; exact Hk.
Qed.

Lemma get_position_perm_eq (pos0 : list (Q * Q)) (invert_x invert_y : bool) names perm min_x :
  get_position_names_and_inds argsort pos0 invert_x invert_y = Some (names, perm) ->
  list_min (map fst (signed_pos pos0 invert_x)) = Some min_x ->
  perm = concat (map (fun i => lane_order argsort (signed_pos pos0 invert_x)
                      (lane_members (map fst (signed_pos pos0 invert_x)) min_x
                         (lane_pitch (map fst (signed_pos pos0 invert_x))) i) invert_y)
                   (seq 0 10)).
Proof.
  intros H Hmin. unfold get_position_names_and_inds in H. rewrite Hmin in H.
  injection H as _ <-. reflexivity.
Qed.

Lemma get_position_min_some (pos0 : list (Q * Q)) (invert_x invert_y : bool) names perm :
  get_position_names_and_inds argsort pos0 invert_x invert_y = Some (names, perm) ->
  exists min_x, list_min (map fst (signed_pos pos0 invert_x)) = Some min_x.
Proof.
  unfold get_position_names_and_inds.
  destruct (list_min _) as [m|]; [|discriminate]. intros _. exists m. reflexivity.
Qed.

(** The order [get_position_names_and_inds] returns never repeats a
    position, so [img_[:, sort_inds, ...]] never shows a position twice. *)
Theorem get_position_order_nodup (pos0 : list (Q * Q)) (invert_x invert_y : bool) names perm :
  get_position_names_and_inds argsort pos0 invert_x invert_y = Some (names, perm) ->
  NoDup perm.
Proof.
  intros H. destruct (get_position_min_some _ _ _ _ _ H) as [min_x Hmin].
  rewrite (get_position_perm_eq _ _ _ _ _ _ H Hmin).
  apply NoDup_concat_map; [apply seq_NoDup | |].
  - intros i _. eapply Permutation_NoDup;
      [apply Permutation_sym, lane_order_perm, argsort_perm | apply lane_members_NoDup].
  - intros i i' x _ _ Hne Hx Hx'.
    apply (Permutation_in _ (lane_order_perm argsort argsort_perm _ _ _)) in Hx, Hx'.
    exact (lane_bands_disjoint _ _ _ i i' x (lane_pitch_nonneg _) Hne Hx Hx').
Qed.

(** A position is in the returned order exactly when it lies in one of
    the 10 lane bands; the other positions are dropped from the stack. *)
Theorem get_position_order_members (pos0 : list (Q * Q)) (invert_x invert_y : bool)
    names perm (min_x : Q) (k : nat) :
  get_position_names_and_inds argsort pos0 invert_x invert_y = Some (names, perm) ->
  let x_pos := map fst (signed_pos pos0 invert_x) in
  list_min x_pos = Some min_x ->
  (In k perm <-> exists i, i < 10 /\ In k (lane_members x_pos min_x (lane_pitch x_pos) i)).
Proof.
  intros H x_pos Hmin.
  rewrite (get_position_perm_eq _ _ _ _ _ _ H Hmin), in_concat_map_seq.
  split; intros (i & Hi & Hk); exists i; split; try exact Hi.
  - exact (Permutation_in _ (lane_order_perm argsort argsort_perm _ _ _) Hk).
  - exact (Permutation_in _ (Permutation_sym (lane_order_perm argsort argsort_perm _ _ _)) Hk).
Qed.

(** [LoadWidget._on_click] reorders the labels with the returned order
    ([tmp_channel_names[sort_inds]]): the result reads
    ["ch1-1" .. "ch1-m1", "ch2-1" .. "ch2-m2", ...], lane after lane,
    each lane numbered from 1 to its size. *)
Theorem get_position_reordered_labels (pos0 : list (Q * Q)) (invert_x invert_y : bool)
    names perm (min_x : Q) :
  get_position_names_and_inds argsort pos0 invert_x invert_y = Some (names, perm) ->
  let x_pos := map fst (signed_pos pos0 invert_x) in
  list_min x_pos = Some min_x ->
  np_take names perm =
  Some (concat (map (fun i => map (fun j => Some (position_label i j))
                      (seq 1 (length (lane_members x_pos min_x (lane_pitch x_pos) i))))
                  (seq 0 10))).
Proof.
  intros H x_pos Hmin.
  rewrite (get_position_perm_eq _ _ _ _ _ _ H Hmin).
  assert (Hl : forall l, (forall i, In i l -> i < 10) ->
    np_take names (concat (map (fun i => lane_order argsort (signed_pos pos0 invert_x)
                      (lane_members x_pos min_x (lane_pitch x_pos) i) invert_y) l)) =
    Some (concat (map (fun i => map (fun j => Some (position_label i j))
                      (seq 1 (length (lane_members x_pos min_x (lane_pitch x_pos) i)))) l))).
  { induction l as [|i l IH]; intros Hin; [reflexivity|]. simpl.
    apply np_take_app; [|apply IH; intros i' Hi'; apply Hin; right; exact Hi'].
    rewrite (np_take_indexed _ _ (fun t => Some (position_label i (S t)))).
    - rewrite lane_order_length, <- seq_shift, map_map. reflexivity.
    - intros t k Ht. apply (lane_member_label pos0 invert_x invert_y names perm min_x i t k H);
        [exact Hmin | apply Hin; left; reflexivity | exact Ht]. }
  apply Hl. intros i Hi. apply in_seq in Hi. lia.
Qed.

(** With no two positions between 2000 and 6000 apart in x, the lane
    pitch is no number (numpy's mean of nothing) and every lane is empty:
    the order is empty and no position gets a label. *)
Theorem get_position_no_neighbours (pos0 : list (Q * Q)) (invert_x invert_y : bool) :
  pos0 <> [] ->
  filter nearest_neighbor_window (pairwise_distances_1d (map fst (signed_pos pos0 invert_x))) = [] ->
  get_position_names_and_inds argsort pos0 invert_x invert_y =
  Some (repeat None (length pos0), []).
Proof.
  intros Hne Hf.
  assert (Hlen : length (signed_pos pos0 invert_x) = length pos0)
    by (destruct invert_x; simpl; rewrite ?length_map; reflexivity).
  assert (Hp : lane_pitch (map fst (signed_pos pos0 invert_x)) = 0%Q)
    by (unfold lane_pitch; rewrite Hf; reflexivity).
  assert (Hm : forall min_x i,
             lane_members (map fst (signed_pos pos0 invert_x)) min_x 0%Q i = []).
  { intros min_x i. destruct (lane_members _ min_x 0%Q i) as [|k r] eqn:E; [reflexivity|].
    exfalso. assert (Hk : In k (k :: r)) by (left; reflexivity). rewrite <- E in Hk.
    apply lane_members_spec in Hk as [_ [H1 H2]].
    unfold Qdiv in *. change (/ 3)%Q with (1 # 3)%Q in *.
    generalize dependent (inject_Z (Z.of_nat i) * 0)%Q. intros. lra. }
  unfold get_position_names_and_inds. cbv zeta. rewrite Hp.
  destruct (list_min (map fst (signed_pos pos0 invert_x))) as [min_x|] eqn:Emin.
  2: { destruct pos0; [contradiction|]. destruct invert_x; discriminate Emin. }
  assert (Hs : forall l acc, fold_left (lane_step argsort (signed_pos pos0 invert_x)
                 (map fst (signed_pos pos0 invert_x)) min_x 0%Q invert_y) l acc = acc).
  { induction l as [|i l IH]; intros acc; simpl; [reflexivity|].
    rewrite IH. unfold lane_step. cbv zeta. rewrite Hm. reflexivity. }
  assert (Hlo : forall i, lane_order argsort (signed_pos pos0 invert_x)
                  (lane_members (map fst (signed_pos pos0 invert_x)) min_x 0%Q i) invert_y = []).
  { intros i. rewrite Hm. unfold lane_order.
    pose proof (lane_sort_inds_perm argsort argsort_perm (signed_pos pos0 invert_x) [] invert_y)
      as P.
    simpl in P. apply Permutation_sym, Permutation_nil in P. rewrite P. reflexivity. }
  rewrite Hs, Hlen, (map_ext _ (fun _ => []) Hlo). reflexivity.
Qed.

End GridLabels.

(** The lane bands never overlap: with the pitch the code computes (a
    mean of distances, so never negative), a position lies in at most one
    of the lanes. *)
Theorem get_position_lanes_disjoint (x_pos : list Q) (min_x : Q) (i i' k : nat) :
  i <> i' -> In k (lane_members x_pos min_x (lane_pitch x_pos) i) ->
  ~ In k (lane_members x_pos min_x (lane_pitch x_pos) i').
Proof.
  intros Hne Hk. apply (lane_bands_disjoint x_pos min_x _ i i' k); [apply lane_pitch_nonneg | exact Hne | exact Hk].
Qed.

Lemma get_position_lanes_disjoint_witness :
  0 <> 1 /\ In 4 (lane_members (map fst grid_3x4) 0 (lane_pitch (map fst grid_3x4)) 1) /\
  ~ In 4 (lane_members (map fst grid_3x4) 0 (lane_pitch (map fst grid_3x4)) 0).
Proof.
  assert (H : In 4 (lane_members (map fst grid_3x4) 0 (lane_pitch (map fst grid_3x4)) 1))
    by (vm_compute; auto).
  split; [lia|]. split; [exact H|].
  exact (get_position_lanes_disjoint (map fst grid_3x4) 0 1 0 4 ltac:(lia) H).
Defined.

Lemma get_position_label_of_lane_member_witness :
  get_position_names_and_inds argsort_stable grid_3x4 false false
    = Some (grid_3x4_names, grid_3x4_perm) /\
  list_min (map fst (signed_pos grid_3x4 false)) = Some 0%Q /\ 1 < 10 /\
  nth_error (lane_order argsort_stable (signed_pos grid_3x4 false)
    (lane_members (map fst (signed_pos grid_3x4 false)) 0
       (lane_pitch (map fst (signed_pos grid_3x4 false))) 1) false) 0 = Some 4 /\
  nth_error grid_3x4_names 4 = Some (Some (position_label 1 1)).
Proof.
  assert (H : get_position_names_and_inds argsort_stable grid_3x4 false false
                = Some (grid_3x4_names, grid_3x4_perm)) by (vm_compute; reflexivity).
  assert (Hm : list_min (map fst (signed_pos grid_3x4 false)) = Some 0%Q)
    by (vm_compute; reflexivity).
  assert (Ht : nth_error (lane_order argsort_stable (signed_pos grid_3x4 false)
    (lane_members (map fst (signed_pos grid_3x4 false)) 0
       (lane_pitch (map fst (signed_pos grid_3x4 false))) 1) false) 0 = Some 4)
    by (vm_compute; reflexivity).
  split; [exact H|]. split; [exact Hm|]. split; [lia|]. split; [exact Ht|].
  exact (get_position_label_of_lane_member argsort_stable argsort_stable_perm
           grid_3x4 false false grid_3x4_names grid_3x4_perm 0 1 0 4 H Hm ltac:(lia) Ht).
Defined.

Lemma get_position_unlabelled_witness :
  get_position_names_and_inds argsort_stable grid_outlier false false
    = Some ([Some "ch1-1"; Some "ch2-1"; None]%string, [0; 1]) /\
  list_min (map fst (signed_pos grid_outlier false)) = Some 0%Q /\ 2 < length grid_outlier /\
  (forall i, i < 10 -> ~ In 2 (lane_members (map fst (signed_pos grid_outlier false)) 0
                                  (lane_pitch (map fst (signed_pos grid_outlier false))) i)) /\
  nth_error [Some "ch1-1"; Some "ch2-1"; None]%string 2 = Some None.
Proof.
  assert (H : get_position_names_and_inds argsort_stable grid_outlier false false
                = Some ([Some "ch1-1"; Some "ch2-1"; None]%string, [0; 1]))
    by (vm_compute; reflexivity).
  assert (Hm : list_min (map fst (signed_pos grid_outlier false)) = Some 0%Q)
    by (vm_compute; reflexivity).
  assert (Hno : forall i, i < 10 -> ~ In 2 (lane_members (map fst (signed_pos grid_outlier false)) 0
                                  (lane_pitch (map fst (signed_pos grid_outlier false))) i)).
  { intros i Hi. rewrite lane_members_spec. vm_compute. intros [_ [H1 H2]].
    do 10 (destruct i as [|i]; [vm_compute in H1, H2; discriminate || tauto|]). lia. }
  split; [exact H|]. split; [exact Hm|]. split; [vm_compute; lia|]. split; [exact Hno|].
  exact (get_position_unlabelled argsort_stable grid_outlier false false _ _ 0 2 H Hm
           ltac:(vm_compute; lia) Hno).
Defined.

Lemma get_position_order_nodup_witness :
  get_position_names_and_inds argsort_stable grid_3x4 false true
    = Some ([Some "ch2-1"; Some "ch1-4"; Some "ch3-3"; Some "ch1-1"; Some "ch2-4";
             Some "ch3-4"; Some "ch1-3"; Some "ch1-2"; Some "ch2-3"; Some "ch2-2";
             Some "ch3-2"; Some "ch3-1"]%string,
            [3; 7; 6; 1; 0; 9; 8; 4; 11; 10; 2; 5]) /\
  NoDup [3; 7; 6; 1; 0; 9; 8; 4; 11; 10; 2; 5].
Proof.
  assert (H : get_position_names_and_inds argsort_stable grid_3x4 false true
    = Some ([Some "ch2-1"; Some "ch1-4"; Some "ch3-3"; Some "ch1-1"; Some "ch2-4";
             Some "ch3-4"; Some "ch1-3"; Some "ch1-2"; Some "ch2-3"; Some "ch2-2";
             Some "ch3-2"; Some "ch3-1"]%string,
            [3; 7; 6; 1; 0; 9; 8; 4; 11; 10; 2; 5])) by (vm_compute; reflexivity).
  split; [exact H|].
  exact (get_position_order_nodup argsort_stable argsort_stable_perm grid_3x4 false true _ _ H).
Defined.

Lemma get_position_order_members_witness :
  get_position_names_and_inds argsort_stable grid_outlier false false
    = Some ([Some "ch1-1"; Some "ch2-1"; None]%string, [0; 1]) /\
  list_min (map fst (signed_pos grid_outlier false)) = Some 0%Q /\
  (In 1 [0; 1] <-> exists i, i < 10 /\
     In 1 (lane_members (map fst (signed_pos grid_outlier false)) 0
             (lane_pitch (map fst (signed_pos grid_outlier false))) i)).
Proof.
  assert (H : get_position_names_and_inds argsort_stable grid_outlier false false
                = Some ([Some "ch1-1"; Some "ch2-1"; None]%string, [0; 1]))
    by (vm_compute; reflexivity).
  assert (Hm : list_min (map fst (signed_pos grid_outlier false)) = Some 0%Q)
    by (vm_compute; reflexivity).
  split; [exact H|]. split; [exact Hm|].
  exact (get_position_order_members argsort_stable argsort_stable_perm grid_outlier false false
           _ _ 0 1 H Hm).
Defined.

Lemma get_position_reordered_labels_witness :
  get_position_names_and_inds argsort_stable grid_3x4 false false
    = Some (grid_3x4_names, grid_3x4_perm) /\
  list_min (map fst (signed_pos grid_3x4 false)) = Some 0%Q /\
  np_take grid_3x4_names grid_3x4_perm =
  Some (concat (map (fun i => map (fun j => Some (position_label i j))
          (seq 1 (length (lane_members (map fst (signed_pos grid_3x4 false)) 0
                            (lane_pitch (map fst (signed_pos grid_3x4 false))) i))))
        (seq 0 10))).
Proof.
  assert (H : get_position_names_and_inds argsort_stable grid_3x4 false false
                = Some (grid_3x4_names, grid_3x4_perm)) by (vm_compute; reflexivity).
  assert (Hm : list_min (map fst (signed_pos grid_3x4 false)) = Some 0%Q)
    by (vm_compute; reflexivity).
  split; [exact H|]. split; [exact Hm|].
  exact (get_position_reordered_labels argsort_stable argsort_stable_perm grid_3x4 false false
           _ _ 0 H Hm).
Defined.

Lemma get_position_no_neighbours_witness :
  grid_far <> [] /\
  filter nearest_neighbor_window (pairwise_distances_1d (map fst (signed_pos grid_far false))) = [] /\
  get_position_names_and_inds argsort_stable grid_far false false = Some ([None; None], []).
Proof.
  assert (Hne : grid_far <> []) by discriminate.
  assert (Hf : filter nearest_neighbor_window
                 (pairwise_distances_1d (map fst (signed_pos grid_far false))) = [])
    by (vm_compute; reflexivity).
  split; [exact Hne|]. split; [exact Hf|].
  exact (get_position_no_neighbours argsort_stable argsort_stable_perm grid_far false false Hne Hf).
Defined.
